(** * Assembly animation (src/main.js): a shallow embedding

    The program is the [AssemblyAnimation] class of src/main.js: it cuts a
    loaded scene graph into components, frames an orthographic camera on
    them, scatters them, and then interpolates every component from its
    scattered pose to its original pose.

    Conventions of the embedding.
    - A JavaScript number is read as a real number ([R]): the arithmetic of
      the source is taken exactly, without the rounding of IEEE doubles and
      without NaN or the infinities.  [Math.PI] is [PI].
    - A JavaScript object that is used for its identity (a mesh, a group) is
      an [obj], a natural number; the [Map]s keyed by such objects are
      [gmap obj _].
    - [this] is the record [AssemblyAnimation]; a method is a function from
      the record to the record.  A method that can throw returns an
      [option].
    - [Math.random] reads the next value of a stream carried by the record.
    - The methods of the three.js library the source calls are written out
      in [Module THREE] from the library's code. *)

From Stdlib Require Import Reals Lra Lia String.
From Stdlib Require PrimFloat.
From stdpp Require Import base option list gmap.

#[local] Open Scope R_scope.

(** ** Comparison operators of the source, as booleans *)

Definition ltb (a b : R) : bool := if Rlt_dec a b then true else false.
Definition leb (a b : R) : bool := if Rle_dec a b then true else false.
Definition geb (a b : R) : bool := if Rge_dec a b then true else false.
Definition strict_eqb (a b : R) : bool := if Req_dec_T a b then true else false.

(** [Math.max(a, b, c)] *)
Definition Math_max3 (a b c : R) : R := Rmax (Rmax a b) c.

(** [Math.pow(b, e)] for a positive base *)
Definition Math_pow (b e : R) : R := Rpower b e.

(** [Math.atan2(y, x)] *)
Definition Math_atan2 (y x : R) : R :=
  if Rlt_dec 0 x then atan (y / x)
  else if Rlt_dec x 0 then
    (if Rle_dec 0 y then atan (y / x) + PI else atan (y / x) - PI)
  else if Rlt_dec 0 y then PI / 2
  else if Rlt_dec y 0 then - (PI / 2)
  else 0.

(** ** The three.js methods the source calls *)

Module THREE.

(** [THREE.Vector3] *)
Record Vector3 := mkVector3 { x : R; y : R; z : R }.

(** [new THREE.Vector3()] *)
Definition Vector3_zero : Vector3 := mkVector3 0 0 0.

(** [Vector3.lerpVectors(v1, v2, alpha)]:
    [this.x = v1.x + (v2.x - v1.x) * alpha], and so on. *)
Definition lerpVectors (v1 v2 : Vector3) (alpha : R) : Vector3 :=
  mkVector3 (x v1 + (x v2 - x v1) * alpha)
            (y v1 + (y v2 - y v1) * alpha)
            (z v1 + (z v2 - z v1) * alpha).

(** [Vector3.sub] and [Vector3.add] *)
Definition sub (a b : Vector3) : Vector3 :=
  mkVector3 (x a - x b) (y a - y b) (z a - z b).
Definition add (a b : Vector3) : Vector3 :=
  mkVector3 (x a + x b) (y a + y b) (z a + z b).

(** [Vector3.multiplyScalar] *)
Definition multiplyScalar (a : Vector3) (k : R) : Vector3 :=
  mkVector3 (x a * k) (y a * k) (z a * k).

(** [Vector3.min] and [Vector3.max], componentwise *)
Definition vmin (a b : Vector3) : Vector3 :=
  mkVector3 (Rmin (x a) (x b)) (Rmin (y a) (y b)) (Rmin (z a) (z b)).
Definition vmax (a b : Vector3) : Vector3 :=
  mkVector3 (Rmax (x a) (x b)) (Rmax (y a) (y b)) (Rmax (z a) (z b)).

(** [Vector3.length] and [Vector3.distanceTo] *)
Definition length (a : Vector3) : R :=
  sqrt (x a * x a + y a * y a + z a * z a).
Definition distanceTo (a b : Vector3) : R :=
  sqrt ((x a - x b) * (x a - x b) + (y a - y b) * (y a - y b)
        + (z a - z b) * (z a - z b)).

(** [Vector3.normalize]: [divideScalar(this.length() || 1)], and
    [divideScalar(s)] is [multiplyScalar(1 / s)]. *)
Definition normalize (a : Vector3) : Vector3 :=
  let l := length a in
  multiplyScalar a (1 / (if strict_eqb l 0 then 1 else l)).

(** [THREE.Euler], in the library's default order 'XYZ' (the source never
    sets another one). *)
Record Euler := mkEuler { ex : R; ey : R; ez : R }.

(** [new THREE.Euler()] *)
Definition Euler_zero : Euler := mkEuler 0 0 0.

(** [THREE.Quaternion] *)
Record Quaternion := mkQuaternion { qx : R; qy : R; qz : R; qw : R }.

(** [Quaternion.setFromEuler(euler)], case 'XYZ' *)
Definition setFromEuler (e : Euler) : Quaternion :=
  let c1 := cos (ex e / 2) in
  let c2 := cos (ey e / 2) in
  let c3 := cos (ez e / 2) in
  let s1 := sin (ex e / 2) in
  let s2 := sin (ey e / 2) in
  let s3 := sin (ez e / 2) in
  mkQuaternion (s1 * c2 * c3 + c1 * s2 * s3)
               (c1 * s2 * c3 - s1 * c2 * s3)
               (c1 * c2 * s3 + s1 * s2 * c3)
               (c1 * c2 * c3 - s1 * s2 * s3).

(** [Quaternion.normalize] *)
Definition qnormalize (q : Quaternion) : Quaternion :=
  let l := sqrt (qx q * qx q + qy q * qy q + qz q * qz q + qw q * qw q) in
  if strict_eqb l 0 then mkQuaternion 0 0 0 1
  else let k := 1 / l in
       mkQuaternion (qx q * k) (qy q * k) (qz q * k) (qw q * k).

(** [Number.EPSILON] *)
Definition EPSILON : R := / 2 ^ 52.

(** [Quaternion.slerp(qb, t)] on a copy of [qa], which is what
    [Quaternion.slerpQuaternions(qa, qb, t)] does. *)
Definition slerpQuaternions (qa qb : Quaternion) (t : R) : Quaternion :=
  if strict_eqb t 0 then qa
  else if strict_eqb t 1 then qb
  else
    let dot := qw qa * qw qb + qx qa * qx qb + qy qa * qy qb
               + qz qa * qz qb in
    let tq := if ltb dot 0
              then mkQuaternion (- qx qb) (- qy qb) (- qz qb) (- qw qb)
              else qb in
    let cosHalfTheta := if ltb dot 0 then - dot else dot in
    if geb cosHalfTheta 1 then qa
    else
      let sqrSinHalfTheta := 1 - cosHalfTheta * cosHalfTheta in
      if leb sqrSinHalfTheta EPSILON then
        let s := 1 - t in
        qnormalize (mkQuaternion (s * qx qa + t * qx tq)
                                 (s * qy qa + t * qy tq)
                                 (s * qz qa + t * qz tq)
                                 (s * qw qa + t * qw tq))
      else
        let sinHalfTheta := sqrt sqrSinHalfTheta in
        let halfTheta := Math_atan2 sinHalfTheta cosHalfTheta in
        let ratioA := sin ((1 - t) * halfTheta) / sinHalfTheta in
        let ratioB := sin (t * halfTheta) / sinHalfTheta in
        mkQuaternion (qx qa * ratioA + qx tq * ratioB)
                     (qy qa * ratioA + qy tq * ratioB)
                     (qz qa * ratioA + qz tq * ratioB)
                     (qw qa * ratioA + qw tq * ratioB).

(** [MathUtils.clamp(value, min, max)] *)
Definition clamp (v lo hi : R) : R := Rmax lo (Rmin hi v).

(** [Euler.setFromQuaternion(q)]: the rotation matrix of [q]
    ([Matrix4.makeRotationFromQuaternion]) and then
    [Euler.setFromRotationMatrix], case 'XYZ'. *)
Definition setFromQuaternion (q : Quaternion) : Euler :=
  let x2 := qx q + qx q in
  let y2 := qy q + qy q in
  let z2 := qz q + qz q in
  let xx := qx q * x2 in
  let xy := qx q * y2 in
  let xz := qx q * z2 in
  let yy := qy q * y2 in
  let yz := qy q * z2 in
  let zz := qz q * z2 in
  let wx := qw q * x2 in
  let wy := qw q * y2 in
  let wz := qw q * z2 in
  let m11 := 1 - (yy + zz) in
  let m12 := xy - wz in
  let m13 := xz + wy in
  let m22 := 1 - (xx + zz) in
  let m23 := yz - wx in
  let m32 := yz + wx in
  let m33 := 1 - (xx + yy) in
  let ry := asin (clamp m13 (-1) 1) in
  if ltb (Rabs m13) (9999999 / 10000000)
  then mkEuler (Math_atan2 (- m23) m33) ry (Math_atan2 (- m12) m11)
  else mkEuler (Math_atan2 m32 m22) ry 0.

(** [THREE.Box3].  [Box3_empty] is the box [makeEmpty()] leaves, whose
    corners are [+Infinity] and [-Infinity]. *)
Inductive Box3 :=
| Box3_empty
| Box3_of (bmin bmax : Vector3).

(** [Box3.isEmpty] *)
Definition isEmpty (b : Box3) : bool :=
  match b with
  | Box3_empty => true
  | Box3_of mn mx => ltb (x mx) (x mn) || ltb (y mx) (y mn) || ltb (z mx) (z mn)
  end.

(** [Box3.union] *)
Definition union (a b : Box3) : Box3 :=
  match a, b with
  | Box3_empty, _ => b
  | _, Box3_empty => a
  | Box3_of mn mx, Box3_of mn' mx' => Box3_of (vmin mn mn') (vmax mx mx')
  end.

(** [Box3.getCenter] and [Box3.getSize] *)
Definition getCenter (b : Box3) : Vector3 :=
  match b with
  | Box3_empty => Vector3_zero
  | Box3_of mn mx =>
      if isEmpty b then Vector3_zero else multiplyScalar (add mn mx) (1 / 2)
  end.
Definition getSize (b : Box3) : Vector3 :=
  match b with
  | Box3_empty => Vector3_zero
  | Box3_of mn mx => if isEmpty b then Vector3_zero else sub mx mn
  end.

(** [Box3.translate] *)
Definition translate (b : Box3) (offset : Vector3) : Box3 :=
  match b with
  | Box3_empty => Box3_empty
  | Box3_of mn mx => Box3_of (add mn offset) (add mx offset)
  end.

(** The transform of a [THREE.Object3D]: the three fields the source
    reads and writes. *)
Record Object3D := mkObject3D {
  position : Vector3;
  rotation : Euler;
  scale : Vector3
}.

End THREE.

Import THREE.

(** ** The same interpolation on IEEE doubles *)

Module Binary64.

Import PrimFloat.

(** One coordinate of [Vector3.lerpVectors] with the arithmetic of the
    numbers of JavaScript, which are the binary64 floats.  It is here to
    show what reading the numbers as reals leaves out. *)
Definition lerp (v1 v2 alpha : float) : float :=
  add v1 (mul (sub v2 v1) alpha).

End Binary64.

(** ** The state of an [AssemblyAnimation] *)

(** An object used for its identity. *)
Definition obj := nat.

(** [THREE.OrthographicCamera]: the frustum planes, the zoom, the position
    and the point last given to [lookAt]. *)
Record Camera := mkCamera {
  left : R;
  right : R;
  top : R;
  bottom : R;
  zoom : R;
  cameraPosition : Vector3;
  cameraLookAt : Vector3
}.

(** A mesh of the loaded scene graph, with what [processModel] reads from
    it: the corners of [geometry.boundingBox] under [matrixWorld], the world
    position, quaternion and scale of the node, and the diagonal
    [Box3.setFromObject] measures on the group built from it. *)
Record SceneMesh := mkSceneMesh {
  worldBoxMin : Vector3;
  worldBoxMax : Vector3;
  worldPosition : Vector3;
  worldQuaternion : Quaternion;
  worldScale : Vector3;
  groupDiagonal : R
}.

(** The page: the size of the element 'animation-container' when there is
    one, and the size of the window. *)
Record Page := mkPage {
  container : option (R * R);
  windowSize : R * R
}.

(** The fields of [this] the methods below read and write.  The renderer,
    the scene list and the materials are not represented. *)
Record AssemblyAnimation := mkAssemblyAnimation {
  camera : Camera;
  controlsTarget : Vector3;
  components : list obj;
  componentGroups : list (obj * SceneMesh);
  originalPositions : gmap obj Vector3;
  originalRotations : gmap obj Euler;
  originalScales : gmap obj Vector3;
  scatteredPositions : gmap obj Vector3;
  scatteredRotations : gmap obj Euler;
  scatteredScales : gmap obj Vector3;
  modelBounds : Box3;
  isAnimating : bool;
  startTime : R;
  animationDuration : R;
  (* the live transform of every object of the scene *)
  objects : gmap obj Object3D;
  (* the next object identity [new] hands out *)
  nextObject : obj;
  (* Math.random: the stream and the number of values already read *)
  randomStream : nat -> R;
  randomRead : nat
}.

(** [array.forEach((element, index) => body)] over a state [St]. *)
Fixpoint forEachFrom {A St : Type} (body : A -> nat -> St -> St)
    (l : list A) (index : nat) (s : St) : St :=
  match l with
  | [] => s
  | a :: l' => forEachFrom body l' (S index) (body a index s)
  end.

Definition forEach {A St : Type} (body : A -> nat -> St -> St)
    (l : list A) (s : St) : St :=
  forEachFrom body l 0%nat s.

(** The same when the body can throw. *)
Fixpoint tryForEachFrom {A St : Type} (body : A -> nat -> St -> option St)
    (l : list A) (index : nat) (s : St) : option St :=
  match l with
  | [] => Some s
  | a :: l' =>
      match body a index s with
      | Some s' => tryForEachFrom body l' (S index) s'
      | None => None
      end
  end.

Definition tryForEach {A St : Type} (body : A -> nat -> St -> option St)
    (l : list A) (s : St) : option St :=
  tryForEachFrom body l 0%nat s.

(** ** updateAssemblyProgress *)

(** Lines 531-540: the progress of the component at [index] of
    [totalSlots]. *)
Definition componentProgress (effectiveProgress : R)
    (index totalSlots : nat) : R :=
  let slotStart := INR index / INR totalSlots in
  let slotEnd := (INR index + 1) / INR totalSlots in
  if geb effectiveProgress slotEnd then 1
  else if geb effectiveProgress slotStart
       then (effectiveProgress - slotStart) / (slotEnd - slotStart)
       else 0.

(** Lines 543-545: the easing. *)
Definition eased (componentProgress : R) : R :=
  if strict_eqb componentProgress 0 then 0
  else if strict_eqb componentProgress 1 then 1
  else 1 - Math_pow 2 (-10 * componentProgress).

(** [map.get(key) || fallback] *)
Definition getOr {V : Type} (m : gmap obj V) (key : obj) (fallback : V) : V :=
  match m !! key with
  | Some v => v
  | None => fallback
  end.

(** Lines 548-565: the transform written to one component.  The three
    fields of the component are all overwritten. *)
Definition animatedTransform (this : AssemblyAnimation) (component : obj)
    (eased : R) : Object3D :=
  let startPos := getOr (scatteredPositions this) component Vector3_zero in
  let targetPos := getOr (originalPositions this) component Vector3_zero in
  let startRot := getOr (scatteredRotations this) component Euler_zero in
  let targetRot := getOr (originalRotations this) component Euler_zero in
  let startScale :=
    getOr (scatteredScales this) component
          (mkVector3 (1 / 100) (1 / 100) (1 / 100)) in
  let targetScale :=
    getOr (originalScales this) component (mkVector3 1 1 1) in
  let startQuat := setFromEuler startRot in
  let endQuat := setFromEuler targetRot in
  let currentQuat := slerpQuaternions startQuat endQuat eased in
  mkObject3D (lerpVectors startPos targetPos eased)
             (setFromQuaternion currentQuat)
             (lerpVectors startScale targetScale eased).

(** The write of a live transform. *)
Definition setObject (component : obj) (o : Object3D)
    (this : AssemblyAnimation) : AssemblyAnimation :=
  mkAssemblyAnimation
    (camera this) (controlsTarget this) (components this)
    (componentGroups this)
    (originalPositions this) (originalRotations this) (originalScales this)
    (scatteredPositions this) (scatteredRotations this) (scatteredScales this)
    (modelBounds this) (isAnimating this) (startTime this)
    (animationDuration this)
    (<[component := o]> (objects this))
    (nextObject this) (randomStream this) (randomRead this).

Definition updateAssemblyProgress (scrollProgress : R)
    (this : AssemblyAnimation) : AssemblyAnimation :=
  let totalSlots := List.length (components this) in
  let effectiveProgress := scrollProgress in
  forEach
    (fun component index this =>
       let componentProgress :=
         componentProgress effectiveProgress index totalSlots in
       setObject component
                 (animatedTransform this component (eased componentProgress))
                 this)
    (components this) this.

(** ** frameModel *)

Definition setCamera (c : Camera) (target : Vector3)
    (this : AssemblyAnimation) : AssemblyAnimation :=
  mkAssemblyAnimation
    c target (components this) (componentGroups this)
    (originalPositions this) (originalRotations this) (originalScales this)
    (scatteredPositions this) (scatteredRotations this) (scatteredScales this)
    (modelBounds this) (isAnimating this) (startTime this)
    (animationDuration this) (objects this)
    (nextObject this) (randomStream this) (randomRead this).

(** Line 443: the aspect ratio, of the container when the page has one and
    of the window otherwise. *)
Definition aspectOf (page : Page) : R :=
  match container page with
  | Some (clientWidth, clientHeight) => clientWidth / clientHeight
  | None => fst (windowSize page) / snd (windowSize page)
  end.

(** Lines 419-454.  [updateProjectionMatrix] and [controls.update] derive
    matrices from the fields set here and are not represented. *)
Definition frameModel (page : Page) (this : AssemblyAnimation)
    : AssemblyAnimation :=
  if isEmpty (modelBounds this) then this
  else
    let center := getCenter (modelBounds this) in
    let size := getSize (modelBounds this) in
    let maxDim := Math_max3 (x size) (y size) (z size) in
    let distance := maxDim * 2 in
    let padding := 15 / 10 in
    let frustumSize := (maxDim * padding) / 2 in
    let aspect := aspectOf page in
    setCamera
      (mkCamera (- frustumSize * aspect / 2)
                (frustumSize * aspect / 2)
                (frustumSize / 2)
                (- frustumSize / 2)
                1
                (mkVector3 (x center - distance) (y center + distance)
                           (z center + distance))
                center)
      center this.

(** ** scatterComponents *)

(** [Math.random()]: the value at offset [k] from the values already
    read. *)
Definition random (this : AssemblyAnimation) (k : nat) : R :=
  randomStream this (randomRead this + k)%nat.

(** Lines 474-500: the scattered position and the number of random values
    it reads. *)
Definition scatterPosition (pattern : string) (scatterRadius t : R)
    (index : nat) (rnd : nat -> R) : Vector3 * nat :=
  if String.eqb pattern "spiral" then
    let angle := t * PI * 4 in
    let radius := scatterRadius * (3 / 10 + t * (7 / 10)) in
    (mkVector3 (cos angle * radius)
               ((t - 5 / 10) * scatterRadius * (15 / 10))
               (sin angle * radius), 0%nat)
  else if String.eqb pattern "sphere" then
    let phi := acos (2 * t - 1) in
    let theta := PI * 2 * INR index * (618 / 1000) in
    (mkVector3 (scatterRadius * sin phi * cos theta)
               (scatterRadius * sin phi * sin theta)
               (scatterRadius * cos phi), 0%nat)
  else
    let dir := normalize (mkVector3 (rnd 0%nat - 5 / 10)
                                    (rnd 1%nat - 5 / 10)
                                    (rnd 2%nat - 5 / 10)) in
    let dist := scatterRadius * (5 / 10 + rnd 3%nat * (5 / 10)) in
    (mkVector3 (x dir * dist) (y dir * dist) (z dir * dist), 4%nat).

(** The writes of the three scattered maps, of a live transform, and the
    advance of the random stream. *)
Definition setScattered (component : obj) (p : Vector3) (r : Euler)
    (sc : Vector3) (this : AssemblyAnimation) : AssemblyAnimation :=
  mkAssemblyAnimation
    (camera this) (controlsTarget this) (components this)
    (componentGroups this)
    (originalPositions this) (originalRotations this) (originalScales this)
    (<[component := p]> (scatteredPositions this))
    (<[component := r]> (scatteredRotations this))
    (<[component := sc]> (scatteredScales this))
    (modelBounds this) (isAnimating this) (startTime this)
    (animationDuration this) (objects this)
    (nextObject this) (randomStream this) (randomRead this).

Definition readRandom (n : nat) (this : AssemblyAnimation)
    : AssemblyAnimation :=
  mkAssemblyAnimation
    (camera this) (controlsTarget this) (components this)
    (componentGroups this)
    (originalPositions this) (originalRotations this) (originalScales this)
    (scatteredPositions this) (scatteredRotations this) (scatteredScales this)
    (modelBounds this) (isAnimating this) (startTime this)
    (animationDuration this) (objects this)
    (nextObject this) (randomStream this) (randomRead this + n)%nat.

(** Lines 462-518: the body of the loop.  At index 0, [map.get(component)]
    of a component without a record is [undefined], and [.clone()] on it
    throws. *)
Definition scatterOne (pattern : string) (scatterRadius : R)
    (component : obj) (index : nat) (this : AssemblyAnimation)
    : option AssemblyAnimation :=
  if Nat.eqb index 0 then
    match originalPositions this !! component,
          originalRotations this !! component,
          originalScales this !! component with
    | Some p, Some r, Some sc => Some (setScattered component p r sc this)
    | _, _, _ => None
    end
  else
    let t := INR index / INR (List.length (components this)) in
    let '(scatterPos, n) :=
      scatterPosition pattern scatterRadius t index (random this) in
    let scatterRot :=
      mkEuler (random this n * PI * 2)
              (random this (n + 1) * PI * 2)
              (random this (n + 2) * PI * 2) in
    let scatterScale := mkVector3 (1 / 100) (1 / 100) (1 / 100) in
    Some (readRandom (n + 3)
            (setScattered component scatterPos scatterRot scatterScale
               (setObject component
                  (mkObject3D scatterPos scatterRot scatterScale) this))).

Definition scatterComponents (pattern : string) (this : AssemblyAnimation)
    : option AssemblyAnimation :=
  let size := getSize (modelBounds this) in
  let maxDim := Math_max3 (x size) (y size) (z size) in
  let scatterRadius := maxDim * 10 in
  tryForEach (scatterOne pattern scatterRadius) (components this) this.

(** ** startAnimation *)

(** Lines 585-589; [now] is [performance.now()]. *)
Definition startAnimation (now : R) (this : AssemblyAnimation)
    : AssemblyAnimation :=
  mkAssemblyAnimation
    (camera this) (controlsTarget this) (components this)
    (componentGroups this)
    (originalPositions this) (originalRotations this) (originalScales this)
    (scatteredPositions this) (scatteredRotations this) (scatteredScales this)
    (modelBounds this) true now 4000 (objects this)
    (nextObject this) (randomStream this) (randomRead this).

(** ** processModel *)

Definition MAX_COMPONENTS : nat := 500.

(** Lines 206-213: [model.traverse] visits the nodes in depth-first order
    and keeps the meshes, as long as fewer than [MAX_COMPONENTS] are kept.
    [meshes] is the list of the meshes of the model in that order. *)
Definition candidates (meshes : list SceneMesh) : list SceneMesh :=
  take MAX_COMPONENTS meshes.

(** Lines 218-229: the union of the world boxes of the candidates. *)
Definition boundsOf (cands : list SceneMesh) : Box3 :=
  foldl (fun bounds node =>
           union bounds
                 (union Box3_empty
                        (Box3_of (worldBoxMin node) (worldBoxMax node))))
        Box3_empty cands.

(** Lines 230-233 *)
Definition maxDimensionOf (bounds : Box3) : R :=
  let size := getSize bounds in
  Math_max3 (x size) (y size) (z size).

Definition minComponentSizeOf (bounds : Box3) : R :=
  maxDimensionOf bounds * (2 / 100).

(** Line 246: the diagonal of the box of one candidate. *)
Definition componentSize (node : SceneMesh) : R :=
  distanceTo (worldBoxMin node) (worldBoxMax node).

(** Lines 253-331: the group of a candidate that is kept.  The materials
    and the two meshes put under the group carry no transform of their own
    and are not represented; [componentGroups] keeps the mesh the group was
    built from. *)
Definition addComponent (center : Vector3) (node : SceneMesh)
    (this : AssemblyAnimation) : AssemblyAnimation :=
  let group := nextObject this in
  let worldPos := sub (worldPosition node) center in
  let worldRot := setFromQuaternion (worldQuaternion node) in
  let worldScale := worldScale node in
  mkAssemblyAnimation
    (camera this) (controlsTarget this)
    (components this ++ [group])
    (componentGroups this ++ [(group, node)])
    (<[group := worldPos]> (originalPositions this))
    (<[group := worldRot]> (originalRotations this))
    (<[group := worldScale]> (originalScales this))
    (scatteredPositions this) (scatteredRotations this) (scatteredScales this)
    (modelBounds this) (isAnimating this) (startTime this)
    (animationDuration this)
    (<[group := mkObject3D worldPos worldRot worldScale]> (objects this))
    (S (nextObject this)) (randomStream this) (randomRead this).

(** Lines 236-332: the body of the second loop, with its early return. *)
Definition processCandidate (center : Vector3) (minComponentSize : R)
    (node : SceneMesh) (this : AssemblyAnimation) : AssemblyAnimation :=
  if ltb (componentSize node) minComponentSize then this
  else addComponent center node this.

(** Lines 343-352: the diagonal the comparator reads from a component, and
    the sort, largest first.  [Array.prototype.sort] is stable. *)
Definition sizeOfComponent (this : AssemblyAnimation) (component : obj) : R :=
  match List.find (fun gm => Nat.eqb (fst gm) component)
                  (componentGroups this) with
  | Some gm => groupDiagonal (snd gm)
  | None => 0
  end.

Fixpoint insertBySize (size : obj -> R) (a : obj) (l : list obj) : list obj :=
  match l with
  | [] => [a]
  | b :: l' =>
      if ltb 0 (size b - size a) then b :: insertBySize size a l'
      else a :: b :: l'
  end.

Definition sortBySize (size : obj -> R) (l : list obj) : list obj :=
  foldr (insertBySize size) [] l.

Definition setBoundsAndComponents (bounds : Box3) (l : list obj)
    (this : AssemblyAnimation) : AssemblyAnimation :=
  mkAssemblyAnimation
    (camera this) (controlsTarget this) l (componentGroups this)
    (originalPositions this) (originalRotations this) (originalScales this)
    (scatteredPositions this) (scatteredRotations this) (scatteredScales this)
    bounds (isAnimating this) (startTime this)
    (animationDuration this) (objects this)
    (nextObject this) (randomStream this) (randomRead this).

(** Lines 197-365.  [meshes] are the meshes of the model in traversal
    order, [page] the page and [now] the time at the end of the method. *)
Definition processModel (meshes : list SceneMesh) (page : Page) (now : R)
    (this : AssemblyAnimation) : option AssemblyAnimation :=
  let componentMap := candidates meshes in
  let bounds := boundsOf componentMap in
  let center := getCenter bounds in
  let minComponentSize := minComponentSizeOf bounds in
  let this :=
    foldl (fun this node => processCandidate center minComponentSize node this)
          (setBoundsAndComponents bounds (components this) this)
          componentMap in
  let this :=
    setBoundsAndComponents
      (translate bounds (multiplyScalar center (-1)))
      (sortBySize (sizeOfComponent this) (components this)) this in
  let this := frameModel page this in
  match scatterComponents "spiral" this with
  | Some this => Some (startAnimation now this)
  | None => None
  end.

(** Lines 8-36 and 38-65: the object the constructor and [init] leave,
    before a model is loaded.  [init] reads the size of the container. *)
Definition newAssemblyAnimation (clientWidth clientHeight : R)
    (stream : nat -> R) : AssemblyAnimation :=
  let aspect := clientWidth / clientHeight in
  let frustumSize := 40 in
  mkAssemblyAnimation
    (mkCamera (- frustumSize * aspect / 2) (frustumSize * aspect / 2)
              (frustumSize / 2) (- frustumSize / 2) 1
              (mkVector3 100 100 100) Vector3_zero)
    Vector3_zero [] []
    ∅ ∅ ∅ ∅ ∅ ∅
    Box3_empty false 0 0 ∅ 0%nat stream 0%nat.

(** ** Definitions for the statements *)

(** The state with other live transforms. *)
Definition withObjects (m : gmap obj Object3D) (this : AssemblyAnimation)
    : AssemblyAnimation :=
  mkAssemblyAnimation
    (camera this) (controlsTarget this) (components this)
    (componentGroups this)
    (originalPositions this) (originalRotations this) (originalScales this)
    (scatteredPositions this) (scatteredRotations this) (scatteredScales this)
    (modelBounds this) (isAnimating this) (startTime this)
    (animationDuration this) m
    (nextObject this) (randomStream this) (randomRead this).

(** The live transforms after the loop has run over [l] from [index]. *)
Fixpoint liveAfter (this : AssemblyAnimation) (progress : R)
    (totalSlots : nat) (l : list obj) (index : nat)
    (m : gmap obj Object3D) : gmap obj Object3D :=
  match l with
  | [] => m
  | component :: l' =>
      liveAfter this progress totalSlots l' (S index)
        (<[component :=
             animatedTransform this component
               (eased (componentProgress progress index totalSlots))]> m)
  end.

(** The pose written at eased progress 0: the scattered position and scale,
    and the scattered rotation taken through a quaternion. *)
Definition scatteredPose (this : AssemblyAnimation) (c : obj) : Object3D :=
  mkObject3D
    (getOr (scatteredPositions this) c Vector3_zero)
    (setFromQuaternion
       (setFromEuler (getOr (scatteredRotations this) c Euler_zero)))
    (getOr (scatteredScales this) c (mkVector3 (1 / 100) (1 / 100) (1 / 100))).

(** The pose written at eased progress 1. *)
Definition originalPose (this : AssemblyAnimation) (c : obj) : Object3D :=
  mkObject3D
    (getOr (originalPositions this) c Vector3_zero)
    (setFromQuaternion
       (setFromEuler (getOr (originalRotations this) c Euler_zero)))
    (getOr (originalScales this) c (mkVector3 1 1 1)).

(** A state of four components, as a scatter leaves it: the first
    component keeps its original transform, the others have a scattered
    position, rotation angles in [0, 2 PI) and the scale 0.01; every live
    transform is the original one. *)
Definition fourOriginalPositions : gmap obj Vector3 :=
  <[0%nat := mkVector3 0 0 0]>
    (<[1%nat := mkVector3 1 0 0]>
       (<[2%nat := mkVector3 0 1 0]> (<[3%nat := mkVector3 0 0 1]> ∅))).

Definition fourScatteredPositions : gmap obj Vector3 :=
  <[0%nat := mkVector3 0 0 0]>
    (<[1%nat := mkVector3 10 (-5) 0]>
       (<[2%nat := mkVector3 (-15) 0 0]> (<[3%nat := mkVector3 0 5 (-20)]> ∅))).

Definition fourOriginalRotations : gmap obj Euler :=
  <[0%nat := Euler_zero]>
    (<[1%nat := Euler_zero]>
       (<[2%nat := Euler_zero]> (<[3%nat := Euler_zero]> ∅))).

Definition fourScatteredRotations : gmap obj Euler :=
  <[0%nat := Euler_zero]>
    (<[1%nat := mkEuler 1 3 5]>
       (<[2%nat := mkEuler 2 4 6]> (<[3%nat := mkEuler 6 5 4]> ∅))).

Definition fourOriginalScales : gmap obj Vector3 :=
  <[0%nat := mkVector3 1 1 1]>
    (<[1%nat := mkVector3 1 1 1]>
       (<[2%nat := mkVector3 1 1 1]> (<[3%nat := mkVector3 1 1 1]> ∅))).

Definition fourScatteredScales : gmap obj Vector3 :=
  <[0%nat := mkVector3 1 1 1]>
    (<[1%nat := mkVector3 (1 / 100) (1 / 100) (1 / 100)]>
       (<[2%nat := mkVector3 (1 / 100) (1 / 100) (1 / 100)]>
          (<[3%nat := mkVector3 (1 / 100) (1 / 100) (1 / 100)]> ∅))).

Definition fourObjects : gmap obj Object3D :=
  <[0%nat := mkObject3D (mkVector3 0 0 0) Euler_zero (mkVector3 1 1 1)]>
    (<[1%nat := mkObject3D (mkVector3 1 0 0) Euler_zero (mkVector3 1 1 1)]>
       (<[2%nat := mkObject3D (mkVector3 0 1 0) Euler_zero (mkVector3 1 1 1)]>
          (<[3%nat := mkObject3D (mkVector3 0 0 1) Euler_zero
                        (mkVector3 1 1 1)]> ∅))).

Definition fourComponents : AssemblyAnimation :=
  mkAssemblyAnimation
    (mkCamera (-20) 20 20 (-20) 1 (mkVector3 100 100 100) Vector3_zero)
    Vector3_zero
    [0; 1; 2; 3]%nat []
    fourOriginalPositions fourOriginalRotations fourOriginalScales
    fourScatteredPositions fourScatteredRotations fourScatteredScales
    (Box3_of (mkVector3 (-1) (-1) (-1)) (mkVector3 1 1 1))
    false 0 0 fourObjects 4%nat (fun _ => 1 / 2) 0%nat.

(** A component that was pushed without any record. *)
Definition unrecorded : AssemblyAnimation :=
  mkAssemblyAnimation
    (mkCamera (-20) 20 20 (-20) 1 (mkVector3 100 100 100) Vector3_zero)
    Vector3_zero [0%nat] [] ∅ ∅ ∅ ∅ ∅ ∅
    Box3_empty false 0 0 ∅ 1%nat (fun _ => 1 / 2) 0%nat.

(** What the scatter of the other components leaves alone: the list, the
    original records, the camera, the bounds, and everything of the
    component [c]. *)
Definition keeps (c : obj) (this this' : AssemblyAnimation) : Prop :=
  (components this' = components this
   /\ componentGroups this' = componentGroups this
   /\ nextObject this' = nextObject this)
  /\ (camera this' = camera this
      /\ controlsTarget this' = controlsTarget this
      /\ modelBounds this' = modelBounds this
      /\ isAnimating this' = isAnimating this
      /\ randomStream this' = randomStream this)
  /\ (originalPositions this' = originalPositions this
      /\ originalRotations this' = originalRotations this
      /\ originalScales this' = originalScales this)
  /\ scatteredPositions this' !! c = scatteredPositions this !! c
  /\ scatteredRotations this' !! c = scatteredRotations this !! c
  /\ scatteredScales this' !! c = scatteredScales this !! c
  /\ objects this' !! c = objects this !! c.

(** The candidates the size filter keeps. *)
Definition kept (minComponentSize : R) (node : SceneMesh) : bool :=
  negb (ltb (componentSize node) minComponentSize).

(** A state in which every component of the list is an object already
    handed out, occurs once, and has its three original records. *)
Definition wellFormed (this : AssemblyAnimation) : Prop :=
  NoDup (components this)
  /\ forall c, c ∈ components this ->
       (c < nextObject this)%nat
       /\ is_Some (originalPositions this !! c)
       /\ is_Some (originalRotations this !! c)
       /\ is_Some (originalScales this !! c).

(** A model of two unit cubes a thousand units apart. *)
Definition cubeAt (d : R) : SceneMesh :=
  mkSceneMesh (mkVector3 d 0 0) (mkVector3 (d + 1) 1 1)
              (mkVector3 d 0 0) (mkQuaternion 0 0 0 1) (mkVector3 1 1 1)
              (sqrt 3).

Definition twoSmallCubes : list SceneMesh := [cubeAt 0; cubeAt 999].

(** A page with a container of 800 by 600. *)
Definition page800 : Page := mkPage (Some (800, 600)) (1024, 768).

(** The object before a model is loaded. *)
Definition fresh : AssemblyAnimation :=
  newAssemblyAnimation 800 600 (fun _ => 1 / 2).

(** * The other methods *)

(** ** reset *)

(** Lines 571-577: the three copies on one component, each under its own
    test. *)
Definition resetTransform (this : AssemblyAnimation) (component : obj)
    (o : Object3D) : Object3D :=
  let o :=
    match originalPositions this !! component with
    | Some originalPos => mkObject3D originalPos (rotation o) (scale o)
    | None => o
    end in
  let o :=
    match originalRotations this !! component with
    | Some originalRot => mkObject3D (position o) originalRot (scale o)
    | None => o
    end in
  match originalScales this !! component with
  | Some originalScale => mkObject3D (position o) (rotation o) originalScale
  | None => o
  end.

(** Lines 569-579.  A component is an object of the store; the copies
    change the fields of that object. *)
Definition reset (this : AssemblyAnimation) : AssemblyAnimation :=
  forEach
    (fun component (_ : nat) this =>
       withObjects
         (alter (resetTransform this component) component (objects this))
         this)
    (components this) this.

(** ** onWindowResize *)

(** Lines 591-609.  [updateProjectionMatrix] and [renderer.setSize] are not
    represented. *)
Definition onWindowResize (page : Page) (this : AssemblyAnimation)
    : AssemblyAnimation :=
  match container page with
  | None => this
  | Some (width, height) =>
      let aspect := width / height in
      let frustumSize :=
        (top (camera this) - bottom (camera this)) / zoom (camera this) in
      setCamera
        (mkCamera (- frustumSize * aspect / 2)
                  (frustumSize * aspect / 2)
                  (frustumSize / 2)
                  (- frustumSize / 2)
                  (zoom (camera this))
                  (cameraPosition (camera this))
                  (cameraLookAt (camera this)))
        (controlsTarget this) this
  end.

(** ** animate *)

(** The two flags of the orbit controls the source writes. *)
Record Controls := mkControls {
  autoRotate : bool;
  enableRotate : bool
}.

Definition setAnimating (b : bool) (this : AssemblyAnimation)
    : AssemblyAnimation :=
  mkAssemblyAnimation
    (camera this) (controlsTarget this) (components this)
    (componentGroups this)
    (originalPositions this) (originalRotations this) (originalScales this)
    (scatteredPositions this) (scatteredRotations this) (scatteredScales this)
    (modelBounds this) b (startTime this)
    (animationDuration this) (objects this)
    (nextObject this) (randomStream this) (randomRead this).

(** Line 621: [1 - Math.pow(1 - progress, 3)]; the exponent is the integer
    3. *)
Definition easeOutCubic (progress : R) : R := 1 - (1 - progress) ^ 3.

(** Lines 614-630: the assembly part of one frame, at the time [now] of
    [performance.now()].  The request of the next frame, [controls.update]
    and the render (lines 612, 633 and 635) belong to the browser, the
    orbit controls and the renderer, and are not represented. *)
Definition animate (now : R) (st : Controls * AssemblyAnimation)
    : Controls * AssemblyAnimation :=
  let '(controls, this) := st in
  if isAnimating this then
    let elapsed := now - startTime this in
    let progress := Rmin (elapsed / animationDuration this) 1 in
    let easedProgress := easeOutCubic progress in
    let this := updateAssemblyProgress easedProgress this in
    if geb progress 1
    then (mkControls true true, setAnimating false this)
    else (controls, this)
  else (controls, this).

(** ** simplifyGeometry *)

(** A [THREE.BufferGeometry]: the vertices of the attribute 'position',
    when there is one, and the index array, when there is one. *)
Record Geometry := mkGeometry {
  positionAttribute : option (list Vector3);
  indexArray : option (list nat)
}.

(** [Math.floor] *)
Definition Math_floor (r : R) : Z := Int_part r.

(** Lines 373-374 *)
Definition targetCountOf (vertexCount : nat) (ratio : R) : nat :=
  Nat.max 100 (Z.to_nat (Math_floor (INR vertexCount * ratio))).

Definition stepOf (vertexCount : nat) (ratio : R) : nat :=
  Nat.max 1 (vertexCount / targetCountOf vertexCount ratio).

(** What the first loop builds: [newPositions], [indexMap] and
    [newIndex]. *)
Record Sampling := mkSampling {
  newPositions : list Vector3;
  indexMap : gmap nat nat;
  newIndex : nat
}.

(** Lines 382-388: the loop [for (i = 0; i < vertexCount; i += step)], from
    [i] on.  [fuel] bounds the number of rounds. *)
Fixpoint sampleFrom (fuel : nat) (positions : list Vector3)
    (vertexCount step i : nat) (acc : Sampling) : Sampling :=
  match fuel with
  | O => acc
  | S fuel' =>
      if (i <? vertexCount)%nat then
        sampleFrom fuel' positions vertexCount step (i + step)%nat
          (mkSampling
             (newPositions acc ++ [default Vector3_zero (positions !! i)])
             (<[i := newIndex acc]> (indexMap acc))
             (S (newIndex acc)))
      else acc
  end.

(** The step is at least 1, so [vertexCount] rounds are enough. *)
Definition sample (positions : list Vector3) (step : nat) : Sampling :=
  sampleFrom (List.length positions) positions (List.length positions) step
    0%nat (mkSampling [] ∅ 0%nat).

(** Lines 393-405: the loop over the triangles.  An index read past the
    end of the array is [undefined], which the map does not have. *)
Fixpoint rebuildIndices (indexMap : gmap nat nat) (indices : list nat)
    : list nat :=
  match indices with
  | i0 :: i1 :: i2 :: rest =>
      match indexMap !! i0, indexMap !! i1, indexMap !! i2 with
      | Some j0, Some j1, Some j2 =>
          j0 :: j1 :: j2 :: rebuildIndices indexMap rest
      | _, _, _ => rebuildIndices indexMap rest
      end
  | _ => []
  end.

(** Lines 367-417 *)
Definition simplifyGeometry (geometry : Geometry) (ratio : R) : Geometry :=
  match positionAttribute geometry with
  | None => geometry
  | Some positions =>
      let vertexCount := List.length positions in
      let step := stepOf vertexCount ratio in
      let sampled := sample positions step in
      let newIndices :=
        match indexArray geometry with
        | Some indices => rebuildIndices (indexMap sampled) indices
        | None => []
        end in
      mkGeometry (Some (newPositions sampled))
                 (if (0 <? List.length newIndices)%nat
                  then Some newIndices else None)
  end.

(** ** createPlaceholderComponents *)



(** ** Definitions for the further statements *)

(** A vector whose coordinates lie between those of two vectors. *)
Definition between (v a b : Vector3) : Prop :=
  Rmin (x a) (x b) <= x v <= Rmax (x a) (x b)
  /\ Rmin (y a) (y b) <= y v <= Rmax (y a) (y b)
  /\ Rmin (z a) (z b) <= z v <= Rmax (z a) (z b).

Definition lengthSq (v : Vector3) : R := x v * x v + y v * y v + z v * z v.

(** The number of random values one scattered component costs. *)
Definition readsPerComponent (pattern : string) : nat :=
  if String.eqb pattern "spiral" then 3%nat
  else if String.eqb pattern "sphere" then 3%nat
  else 7%nat.

(** The state after the second loop of [processModel]. *)
Definition afterLoop (meshes : list SceneMesh) (this : AssemblyAnimation)
    : AssemblyAnimation :=
  let bounds := boundsOf (candidates meshes) in
  foldl (fun this node => addComponent (getCenter bounds) node this)
        (setBoundsAndComponents bounds (components this) this)
        (List.filter (kept (minComponentSizeOf bounds)) (candidates meshes)).


(** Every group of [componentGroups] is a component of the list and has,
    as original records, the world transform of its mesh, with the position
    taken from [center]. *)
Definition recordedFrom (center : Vector3) (this : AssemblyAnimation) : Prop :=
  NoDup (componentGroups this).*1
  /\ forall g node,
       (g, node) ∈ componentGroups this ->
       (g < nextObject this)%nat
       /\ g ∈ components this
       /\ originalPositions this !! g
          = Some (sub (worldPosition node) center)
       /\ originalRotations this !! g
          = Some (setFromQuaternion (worldQuaternion node))
       /\ originalScales this !! g = Some (worldScale node).

(** Every component of the list is an object already handed out whose live
    transform is its original transform. *)
Definition atRest (this : AssemblyAnimation) : Prop :=
  forall c : obj, c ∈ components this ->
    (c < nextObject this)%nat
    /\ exists p r sc,
         originalPositions this !! c = Some p
         /\ originalRotations this !! c = Some r
         /\ originalScales this !! c = Some sc
         /\ objects this !! c = Some (mkObject3D p r sc).

(** The live transforms after the loop of [reset] has run over [l]. *)
Fixpoint resetAfter (this : AssemblyAnimation) (l : list obj)
    (m : gmap obj Object3D) : gmap obj Object3D :=
  match l with
  | [] => m
  | component :: l' =>
      resetAfter this l' (alter (resetTransform this component) component m)
  end.

(** Lines 616-621: the eased progress of the frame at the time [now]. *)
Definition frameProgress (now : R) (this : AssemblyAnimation) : R :=
  easeOutCubic (Rmin ((now - startTime this) / animationDuration this) 1).

(** The first loop after [j] rounds: [j] vertices are sampled, the vertex
    [k] of the new list is the vertex [k * step] of the old one, and the
    map sends [k * step] to [k]. *)
Definition sampledUpTo (positions : list Vector3) (step j : nat)
    (acc : Sampling) : Prop :=
  newIndex acc = j
  /\ List.length (newPositions acc) = j
  /\ (forall k, (k < j)%nat ->
        newPositions acc !! k
        = Some (default Vector3_zero (positions !! (k * step)%nat)))
  /\ (forall m k, indexMap acc !! m = Some k
                  <-> (k < j)%nat /\ m = (k * step)%nat).


(** * Properties *)

(** ** Comparisons *)

Lemma ltb_true a b : a < b -> ltb a b = true.
Proof. intros H. unfold ltb. destruct (Rlt_dec a b); [reflexivity | lra]. Qed.

Lemma ltb_false a b : ~ a < b -> ltb a b = false.
Proof. intros H. unfold ltb. destruct (Rlt_dec a b); [lra | reflexivity]. Qed.

Lemma geb_true a b : a >= b -> geb a b = true.
Proof. intros H. unfold geb. destruct (Rge_dec a b); [reflexivity | lra]. Qed.

Lemma geb_false a b : a < b -> geb a b = false.
Proof. intros H. unfold geb. destruct (Rge_dec a b); [lra | reflexivity]. Qed.

Lemma strict_eqb_refl a : strict_eqb a a = true.
Proof. unfold strict_eqb. destruct (Req_dec_T a a); [reflexivity | lra]. Qed.

Lemma strict_eqb_neq a b : a <> b -> strict_eqb a b = false.
Proof.
  intros H. unfold strict_eqb. destruct (Req_dec_T a b); [tauto | reflexivity].
Qed.

(** ** The slots *)

Section Slots.

Variables (index totalSlots : nat).
Hypothesis in_range : (index < totalSlots)%nat.

Let slotStart : R := INR index / INR totalSlots.
Let slotEnd : R := (INR index + 1) / INR totalSlots.

Lemma totalSlots_pos : 0 < INR totalSlots.
Proof. apply lt_0_INR. lia. Qed.

Lemma slot_width : slotEnd - slotStart = 1 / INR totalSlots.
Proof.
  pose proof totalSlots_pos. unfold slotEnd, slotStart. field. lra.
Qed.

Lemma slot_nonempty : slotStart < slotEnd.
Proof.
  pose proof (Rinv_0_lt_compat _ totalSlots_pos) as Hk.
  unfold slotStart, slotEnd, Rdiv. nra.
Qed.

Lemma slotStart_nonneg : 0 <= slotStart.
Proof.
  pose proof (Rinv_0_lt_compat _ totalSlots_pos) as Hk.
  pose proof (pos_INR index) as Hi.
  unfold slotStart, Rdiv. nra.
Qed.

Lemma slotEnd_le_1 : slotEnd <= 1.
Proof.
  pose proof totalSlots_pos as Hn.
  assert (INR index + 1 <= INR totalSlots) as Hle.
  { rewrite <- S_INR. apply le_INR. lia. }
  unfold slotEnd. apply (Rmult_le_reg_r (INR totalSlots)); [lra |].
  unfold Rdiv. rewrite Rmult_assoc, Rinv_l; lra.
Qed.

End Slots.

(** ** componentProgress *)

Lemma componentProgress_after (progress : R) (index totalSlots : nat) :
  progress >= (INR index + 1) / INR totalSlots ->
  componentProgress progress index totalSlots = 1.
Proof. intros H. unfold componentProgress. now rewrite geb_true. Qed.

Lemma componentProgress_before (progress : R) (index totalSlots : nat) :
  (index < totalSlots)%nat ->
  progress < INR index / INR totalSlots ->
  componentProgress progress index totalSlots = 0.
Proof.
  intros Hi H. pose proof (slot_nonempty index totalSlots Hi) as Hse.
  unfold componentProgress.
  rewrite geb_false by lra. now rewrite geb_false.
Qed.

Lemma componentProgress_within (progress : R) (index totalSlots : nat) :
  (index < totalSlots)%nat ->
  INR index / INR totalSlots <= progress < (INR index + 1) / INR totalSlots ->
  componentProgress progress index totalSlots
  = (progress - INR index / INR totalSlots) / (1 / INR totalSlots).
Proof.
  intros Hi [Hs He]. unfold componentProgress.
  rewrite geb_false by lra. rewrite geb_true by lra.
  now rewrite slot_width.
Qed.

(** Inside its slot a component is at a progress in [0, 1). *)
Lemma componentProgress_within_range (progress : R) (index totalSlots : nat) :
  (index < totalSlots)%nat ->
  INR index / INR totalSlots <= progress < (INR index + 1) / INR totalSlots ->
  0 <= componentProgress progress index totalSlots < 1.
Proof.
  intros Hi [Hs He]. rewrite componentProgress_within by (auto; lra).
  pose proof (totalSlots_pos index totalSlots Hi) as Hn.
  replace ((progress - INR index / INR totalSlots) / (1 / INR totalSlots))
    with (progress * INR totalSlots - INR index) by (field; lra).
  assert (INR index <= progress * INR totalSlots) as H1.
  { apply (Rmult_le_compat_r (INR totalSlots)) in Hs; [| lra].
    unfold Rdiv in Hs. rewrite Rmult_assoc, Rinv_l in Hs; lra. }
  assert (progress * INR totalSlots < INR index + 1) as H2.
  { apply (Rmult_lt_compat_r (INR totalSlots)) in He; [| lra].
    unfold Rdiv in He. rewrite Rmult_assoc, Rinv_l in He; lra. }
  lra.
Qed.

Lemma componentProgress_within_lt (a b : R) (index totalSlots : nat) :
  (index < totalSlots)%nat ->
  INR index / INR totalSlots <= a ->
  a < b ->
  b < (INR index + 1) / INR totalSlots ->
  componentProgress a index totalSlots < componentProgress b index totalSlots.
Proof.
  intros Hi Hs Hab He.
  rewrite !componentProgress_within by (auto; lra).
  pose proof (totalSlots_pos index totalSlots Hi) as Hn.
  replace ((a - INR index / INR totalSlots) / (1 / INR totalSlots))
    with (a * INR totalSlots - INR index) by (field; lra).
  replace ((b - INR index / INR totalSlots) / (1 / INR totalSlots))
    with (b * INR totalSlots - INR index) by (field; lra).
  nra.
Qed.

(** ** eased *)

Lemma eased_0 : eased 0 = 0.
Proof. unfold eased. now rewrite strict_eqb_refl. Qed.

Lemma eased_1 : eased 1 = 1.
Proof.
  unfold eased. rewrite strict_eqb_neq by lra. now rewrite strict_eqb_refl.
Qed.

Lemma eased_between (p : R) :
  0 < p < 1 -> eased p = 1 - Rpower 2 (-10 * p).
Proof.
  intros [H0 H1]. unfold eased, Math_pow.
  rewrite !strict_eqb_neq by lra. reflexivity.
Qed.

(** ** updateAssemblyProgress writes the live transforms and nothing else *)

Lemma withObjects_objects this : withObjects (objects this) this = this.
Proof. now destruct this. Qed.

Lemma updateAssemblyProgress_loop this progress totalSlots l index m :
  forEachFrom
    (fun component index this =>
       setObject component
         (animatedTransform this component
            (eased (componentProgress progress index totalSlots)))
         this)
    l index (withObjects m this)
  = withObjects (liveAfter this progress totalSlots l index m) this.
Proof.
  revert index m. induction l as [| c l IH]; intros index m; simpl.
  - reflexivity.
  - rewrite <- IH. reflexivity.
Qed.

Lemma updateAssemblyProgress_eq progress this :
  updateAssemblyProgress progress this
  = withObjects
      (liveAfter this progress (List.length (components this))
         (components this) 0 (objects this))
      this.
Proof.
  unfold updateAssemblyProgress, forEach.
  rewrite <- updateAssemblyProgress_loop, withObjects_objects. reflexivity.
Qed.

Lemma liveAfter_not_in this progress n (l : list obj) index
    (m : gmap obj Object3D) (c : obj) :
  c ∉ l -> liveAfter this progress n l index m !! c = m !! c.
Proof.
  revert index m. induction l as [| a l IH]; intros index m Hc; simpl.
  - reflexivity.
  - apply not_elem_of_cons in Hc as [Hne Hc].
    rewrite IH by assumption. now rewrite lookup_insert_ne.
Qed.

(** The transform of a component of the list does not depend on the live
    transforms before the call. *)
Lemma liveAfter_in this progress n (l : list obj) index
    (m m' : gmap obj Object3D) (c : obj) :
  c ∈ l ->
  liveAfter this progress n l index m !! c
  = liveAfter this progress n l index m' !! c.
Proof.
  revert index m m'. induction l as [| a l IH]; intros index m m' Hc; simpl.
  - now apply elem_of_nil in Hc.
  - destruct (decide (c ∈ l)) as [Hin | Hout].
    + now apply IH.
    + apply elem_of_cons in Hc as [-> | Hc]; [| contradiction].
      rewrite !liveAfter_not_in by assumption.
      now rewrite !lookup_insert_eq.
Qed.

(** The component at position [k] of a list without repetition gets the
    transform of the slot [index + k]. *)
Lemma liveAfter_lookup this progress n (l : list obj) index
    (m : gmap obj Object3D) (k : nat) (c : obj) :
  NoDup l ->
  l !! k = Some c ->
  liveAfter this progress n l index m !! c
  = Some (animatedTransform this c
            (eased (componentProgress progress (index + k) n))).
Proof.
  revert index m k.
  induction l as [| a l IH]; intros index m k Hnd Hk; [discriminate |].
  apply NoDup_cons in Hnd as [Ha Hnd]. destruct k as [| k]; simpl in *.
  - injection Hk as ->. rewrite liveAfter_not_in by assumption.
    rewrite lookup_insert_eq. now rewrite Nat.add_0_r.
  - rewrite (IH (S index) _ k) by assumption.
    now replace (S index + k)%nat with (index + S k)%nat by lia.
Qed.

(** When every slot of the list is at the same eased progress, every
    component of the list gets the transform of that progress. *)
Lemma liveAfter_uniform this progress n (l : list obj) index
    (m : gmap obj Object3D) (e : R) (c : obj) :
  (forall k, (k < List.length l)%nat ->
             eased (componentProgress progress (index + k) n) = e) ->
  c ∈ l ->
  liveAfter this progress n l index m !! c
  = Some (animatedTransform this c e).
Proof.
  revert index m.
  induction l as [| a l IH]; intros index m He Hc; simpl.
  - now apply elem_of_nil in Hc.
  - destruct (decide (c ∈ l)) as [Hin | Hout].
    + apply IH; [| assumption].
      intros k Hk. replace (S index + k)%nat with (index + S k)%nat by lia.
      apply He. simpl. lia.
    + apply elem_of_cons in Hc as [-> | Hc]; [| contradiction].
      rewrite liveAfter_not_in by assumption.
      rewrite lookup_insert_eq.
      specialize (He 0%nat). rewrite Nat.add_0_r in He.
      rewrite He by (simpl; lia). reflexivity.
Qed.

Lemma liveAfter_withObjects this m0 progress n l index m :
  liveAfter (withObjects m0 this) progress n l index m
  = liveAfter this progress n l index m.
Proof.
  revert index m. induction l as [| c l IH]; intros index m; simpl.
  - reflexivity.
  - now rewrite IH.
Qed.

(** Two progress values that put every slot at the same eased progress
    write the same transforms. *)
Lemma liveAfter_ext this progress progress' n (l : list obj) index
    (m : gmap obj Object3D) :
  (forall k, (k < List.length l)%nat ->
             eased (componentProgress progress (index + k) n)
             = eased (componentProgress progress' (index + k) n)) ->
  liveAfter this progress n l index m = liveAfter this progress' n l index m.
Proof.
  revert index m. induction l as [| c l IH]; intros index m He; simpl.
  - reflexivity.
  - pose proof (He 0%nat) as H0. rewrite Nat.add_0_r in H0.
    rewrite H0 by (simpl; lia). apply IH.
    intros k Hk. replace (S index + k)%nat with (index + S k)%nat by lia.
    apply He. simpl. lia.
Qed.

Lemma updateAssemblyProgress_ext progress progress' this :
  (forall i, (i < List.length (components this))%nat ->
             eased (componentProgress progress i
                      (List.length (components this)))
             = eased (componentProgress progress' i
                        (List.length (components this)))) ->
  updateAssemblyProgress progress this = updateAssemblyProgress progress' this.
Proof.
  intros He. rewrite !updateAssemblyProgress_eq. f_equal.
  apply liveAfter_ext. intros k Hk. now apply He.
Qed.

Lemma updateAssemblyProgress_again p q this :
  updateAssemblyProgress p (updateAssemblyProgress q this)
  = updateAssemblyProgress p this.
Proof.
  rewrite (updateAssemblyProgress_eq q this).
  set (m' := liveAfter this q _ _ _ _).
  rewrite !updateAssemblyProgress_eq. simpl.
  rewrite liveAfter_withObjects.
  unfold withObjects at 1. simpl. unfold withObjects. f_equal.
  apply map_eq. intros c.
  destruct (decide (c ∈ components this)) as [Hin | Hout].
  - now apply liveAfter_in.
  - rewrite !liveAfter_not_in by assumption.
    unfold m'. now rewrite liveAfter_not_in.
Qed.

(** ** The poses at the two ends *)

Lemma lerpVectors_0 v1 v2 : lerpVectors v1 v2 0 = v1.
Proof. destruct v1, v2. unfold lerpVectors. simpl. f_equal; ring. Qed.

Lemma lerpVectors_1 v1 v2 : lerpVectors v1 v2 1 = v2.
Proof. destruct v1, v2. unfold lerpVectors. simpl. f_equal; ring. Qed.

Lemma slerpQuaternions_0 qa qb : slerpQuaternions qa qb 0 = qa.
Proof. unfold slerpQuaternions. now rewrite strict_eqb_refl. Qed.

Lemma slerpQuaternions_1 qa qb : slerpQuaternions qa qb 1 = qb.
Proof.
  unfold slerpQuaternions.
  rewrite strict_eqb_neq by lra. now rewrite strict_eqb_refl.
Qed.

Lemma animatedTransform_0 this c :
  animatedTransform this c 0 = scatteredPose this c.
Proof.
  unfold animatedTransform, scatteredPose.
  now rewrite !lerpVectors_0, slerpQuaternions_0.
Qed.

Lemma animatedTransform_1 this c :
  animatedTransform this c 1 = originalPose this c.
Proof.
  unfold animatedTransform, originalPose.
  now rewrite !lerpVectors_1, slerpQuaternions_1.
Qed.

Lemma componentProgress_at_0 (index totalSlots : nat) :
  (index < totalSlots)%nat -> componentProgress 0 index totalSlots = 0.
Proof.
  intros Hi. pose proof (slot_nonempty index totalSlots Hi) as Hse.
  pose proof (slotStart_nonneg index totalSlots Hi) as Hs.
  destruct (Rle_lt_or_eq_dec _ _ Hs) as [Hlt | Heq].
  - now apply componentProgress_before.
  - unfold componentProgress. rewrite <- Heq in *.
    rewrite geb_false by lra. rewrite geb_true by lra.
    unfold Rdiv. ring.
Qed.

Lemma componentProgress_below_0 (progress : R) (index totalSlots : nat) :
  (index < totalSlots)%nat -> progress < 0 ->
  componentProgress progress index totalSlots = 0.
Proof.
  intros Hi Hp. pose proof (slotStart_nonneg index totalSlots Hi) as Hs.
  apply componentProgress_before; [assumption | lra].
Qed.

Lemma componentProgress_from_1 (progress : R) (index totalSlots : nat) :
  (index < totalSlots)%nat -> progress >= 1 ->
  componentProgress progress index totalSlots = 1.
Proof.
  intros Hi Hp. pose proof (slotEnd_le_1 index totalSlots Hi) as He.
  apply componentProgress_after. lra.
Qed.

Lemma updateAssemblyProgress_at_0 this c :
  c ∈ components this ->
  objects (updateAssemblyProgress 0 this) !! c = Some (scatteredPose this c).
Proof.
  intros Hc. rewrite updateAssemblyProgress_eq. simpl.
  rewrite <- animatedTransform_0. apply liveAfter_uniform; [| assumption].
  intros k Hk. rewrite componentProgress_at_0 by (simpl; lia). apply eased_0.
Qed.

Lemma updateAssemblyProgress_at_1 this c :
  c ∈ components this ->
  objects (updateAssemblyProgress 1 this) !! c = Some (originalPose this c).
Proof.
  intros Hc. rewrite updateAssemblyProgress_eq. simpl.
  rewrite <- animatedTransform_1. apply liveAfter_uniform; [| assumption].
  intros k Hk. rewrite componentProgress_from_1 by (simpl; lia || lra).
  apply eased_1.
Qed.

(** ** The state of four components *)

Example fourComponents_lookup :
  scatteredRotations fourComponents !! 2%nat = Some (mkEuler 2 4 6).
Proof. reflexivity. Qed.

Example fourComponents_nodup : NoDup (components fourComponents).
Proof. compute_done. Qed.

(** ** Rounding *)

Module Binary64Facts.

Import PrimFloat.

(** On doubles the interpolation at 0 gives back the first end, but at 1
    it does not always give the second: from 10 to 0.3 (the double
    0x1.3333333333333p-2) it ends on another double. *)
Example lerp_at_0 :
  eqb (Binary64.lerp 10%float 0x1.3333333333333p-2%float 0%float) 10%float
  = true.
Proof. vm_compute. reflexivity. Qed.

Example lerp_at_1 :
  eqb (Binary64.lerp 10%float 0x1.3333333333333p-2%float 1%float)
      0x1.3333333333333p-2%float
  = false.
Proof. vm_compute. reflexivity. Qed.

End Binary64Facts.

(** ** The rotation that comes back from a quaternion *)

Lemma setFromQuaternion_ey_bound (q : Quaternion) :
  - (PI / 2) <= ey (setFromQuaternion q) <= PI / 2.
Proof.
  unfold setFromQuaternion.
  match goal with |- context [ltb ?a ?b] => destruct (ltb a b) end;
    simpl; apply asin_bound.
Qed.

(** ** What scatterComponents writes *)

Lemma keeps_refl c this : keeps c this this.
Proof. unfold keeps. tauto. Qed.

Lemma keeps_trans c s1 s2 s3 : keeps c s1 s2 -> keeps c s2 s3 -> keeps c s1 s3.
Proof.
  unfold keeps.
  intros ((A1 & A2 & A3) & (A4 & A5 & A6 & A7 & A7') & (A8 & A9 & A10)
          & A11 & A12 & A13 & A14)
         ((B1 & B2 & B3) & (B4 & B5 & B6 & B7 & B7') & (B8 & B9 & B10)
          & B11 & B12 & B13 & B14).
  repeat split; congruence.
Qed.

(** After index 0 the body never throws, and it writes only the component
    it is run on. *)
Lemma scatterOne_later pattern scatterRadius (a c : obj) (index : nat) this :
  index <> 0%nat -> a <> c ->
  exists this',
    scatterOne pattern scatterRadius a index this = Some this'
    /\ keeps c this this'.
Proof.
  intros Hi Hac. unfold scatterOne.
  destruct (Nat.eqb_spec index 0) as [| _]; [contradiction |].
  destruct (scatterPosition pattern scatterRadius _ index (random this))
    as [scatterPos n].
  eexists. split; [reflexivity |].
  unfold keeps. simpl. rewrite !lookup_insert_ne by assumption. tauto.
Qed.

Lemma scatter_later pattern scatterRadius (l : list obj) (c : obj)
    (index : nat) this :
  index <> 0%nat -> c ∉ l ->
  exists this',
    tryForEachFrom (scatterOne pattern scatterRadius) l index this
    = Some this'
    /\ keeps c this this'.
Proof.
  revert index this.
  induction l as [| a l IH]; intros index this Hi Hc; simpl.
  - exists this. split; [reflexivity | apply keeps_refl].
  - apply not_elem_of_cons in Hc as [Hne Hc].
    destruct (scatterOne_later pattern scatterRadius a c index this Hi)
      as (s1 & Hs1 & Hk1); [congruence |].
    rewrite Hs1.
    destruct (IH (S index) s1) as (s2 & Hs2 & Hk2); [lia | assumption |].
    exists s2. split; [exact Hs2 | eapply keeps_trans; eassumption].
Qed.

(** After index 0 the body records for its component a position, three
    values of the random stream times 2 PI as rotation and the scale 0.01,
    and writes the same three to its live transform. *)
Lemma scatterOne_writes pattern scatterRadius (a : obj) (index : nat) this :
  index <> 0%nat ->
  exists this' pos k,
    scatterOne pattern scatterRadius a index this = Some this'
    /\ randomStream this' = randomStream this
    /\ scatteredPositions this' !! a = Some pos
    /\ scatteredRotations this' !! a
       = Some (mkEuler (randomStream this k * PI * 2)
                 (randomStream this (k + 1) * PI * 2)
                 (randomStream this (k + 2) * PI * 2))
    /\ scatteredScales this' !! a
       = Some (mkVector3 (1 / 100) (1 / 100) (1 / 100))
    /\ objects this' !! a
       = Some (mkObject3D pos
                 (mkEuler (randomStream this k * PI * 2)
                    (randomStream this (k + 1) * PI * 2)
                    (randomStream this (k + 2) * PI * 2))
                 (mkVector3 (1 / 100) (1 / 100) (1 / 100))).
Proof.
  intros Hi. unfold scatterOne.
  destruct (Nat.eqb_spec index 0) as [| _]; [contradiction |].
  destruct (scatterPosition pattern scatterRadius _ index (random this))
    as [scatterPos n].
  exists (readRandom (n + 3)
            (setScattered a scatterPos
               (mkEuler (random this n * PI * 2)
                  (random this (n + 1) * PI * 2)
                  (random this (n + 2) * PI * 2))
               (mkVector3 (1 / 100) (1 / 100) (1 / 100))
               (setObject a
                  (mkObject3D scatterPos
                     (mkEuler (random this n * PI * 2)
                        (random this (n + 1) * PI * 2)
                        (random this (n + 2) * PI * 2))
                     (mkVector3 (1 / 100) (1 / 100) (1 / 100))) this))),
    scatterPos, (randomRead this + n)%nat.
  split; [reflexivity |]. simpl. rewrite !lookup_insert_eq.
  unfold random. rewrite !Nat.add_assoc. tauto.
Qed.

(** The same for a component of the list the loop runs over. *)
Lemma scatter_later_writes pattern scatterRadius (l : list obj) (c : obj)
    (index : nat) this :
  index <> 0%nat -> NoDup l -> c ∈ l ->
  exists this' pos k,
    tryForEachFrom (scatterOne pattern scatterRadius) l index this
    = Some this'
    /\ randomStream this' = randomStream this
    /\ scatteredPositions this' !! c = Some pos
    /\ scatteredRotations this' !! c
       = Some (mkEuler (randomStream this k * PI * 2)
                 (randomStream this (k + 1) * PI * 2)
                 (randomStream this (k + 2) * PI * 2))
    /\ scatteredScales this' !! c
       = Some (mkVector3 (1 / 100) (1 / 100) (1 / 100))
    /\ objects this' !! c
       = Some (mkObject3D pos
                 (mkEuler (randomStream this k * PI * 2)
                    (randomStream this (k + 1) * PI * 2)
                    (randomStream this (k + 2) * PI * 2))
                 (mkVector3 (1 / 100) (1 / 100) (1 / 100))).
Proof.
  revert index this.
  induction l as [| a l IH]; intros index this Hi Hnd Hc; simpl.
  - now apply elem_of_nil in Hc.
  - apply NoDup_cons in Hnd as [Ha Hnd].
    destruct (scatterOne_writes pattern scatterRadius a index this Hi)
      as (s1 & pos & k & Hs1 & Hr1 & Hp & Hr & Hs & Ho).
    rewrite Hs1.
    destruct (decide (c ∈ l)) as [Hin | Hout].
    + destruct (IH (S index) s1) as (s2 & pos2 & k2 & Hs2 & Hr2 & H2);
        [lia | assumption | assumption |].
      exists s2, pos2, k2. rewrite <- Hr1.
      split; [exact Hs2 |]. split; [exact Hr2 | exact H2].
    + apply elem_of_cons in Hc as [-> | Hc]; [| contradiction].
      destruct (scatter_later pattern scatterRadius l a (S index) s1)
        as (s2 & Hs2 & Hk); [lia | assumption |].
      exists s2, pos, k. split; [exact Hs2 |].
      destruct Hk as (_ & (_ & _ & _ & _ & K0) & _ & K1 & K2 & K3 & K4).
      rewrite K0, K1, K2, K3, K4. tauto.
Qed.

(** The run of [scatterComponents] on a list that starts with [c]. *)
Lemma scatterComponents_first
    (pattern : string) (this : AssemblyAnimation) (c : obj) (rest : list obj)
    (p : Vector3) (r : Euler) (sc : Vector3) :
  components this = c :: rest ->
  c ∉ rest ->
  originalPositions this !! c = Some p ->
  originalRotations this !! c = Some r ->
  originalScales this !! c = Some sc ->
  exists this',
    scatterComponents pattern this = Some this'
    /\ keeps c (setScattered c p r sc this) this'.
Proof.
  intros Hl Hc Hp Hr Hsc.
  unfold scatterComponents, tryForEach. rewrite Hl. simpl.
  unfold scatterOne at 1. simpl. rewrite Hp, Hr, Hsc.
  apply scatter_later; [lia | assumption].
Qed.

Lemma scatterComponents_nothing (pattern : string) (this : AssemblyAnimation) :
  components this = [] -> scatterComponents pattern this = Some this.
Proof.
  intros Hl. unfold scatterComponents, tryForEach. now rewrite Hl.
Qed.

(** C5.  Whatever the pattern, for a list that starts with the component
    [c] (and holds it once) whose original records are stored,
    [scatterComponents] returns, the scattered position, rotation and scale
    of [c] are its original ones, and the live transform of [c] is the one
    it had. *)
Theorem scatterComponents_keeps_first
    (pattern : string) (this : AssemblyAnimation) (c : obj) (rest : list obj)
    (p : Vector3) (r : Euler) (sc : Vector3) :
  components this = c :: rest ->
  c ∉ rest ->
  originalPositions this !! c = Some p ->
  originalRotations this !! c = Some r ->
  originalScales this !! c = Some sc ->
  exists this',
    scatterComponents pattern this = Some this'
    /\ scatteredPositions this' !! c = Some p
    /\ scatteredRotations this' !! c = Some r
    /\ scatteredScales this' !! c = Some sc
    /\ scatteredPositions this' !! c = originalPositions this' !! c
    /\ scatteredRotations this' !! c = originalRotations this' !! c
    /\ scatteredScales this' !! c = originalScales this' !! c
    /\ objects this' !! c = objects this !! c.
Proof.
  intros Hl Hc Hp Hr Hsc.
  destruct (scatterComponents_first pattern this c rest p r sc)
    as (s2 & Hs2 & Hk); try assumption.
  exists s2. split; [exact Hs2 |].
  destruct Hk as (_ & _ & (K2 & K3 & K4) & K5 & K6 & K7 & K8).
  rewrite K2, K3, K4, K5, K6, K7, K8. simpl.
  rewrite !lookup_insert_eq, Hp, Hr, Hsc. tauto.
Qed.

Lemma scatterComponents_keeps_first_witness :
  exists this',
    scatterComponents "explosion" fourComponents = Some this'
    /\ scatteredPositions this' !! 0%nat = Some (mkVector3 0 0 0)
    /\ scatteredRotations this' !! 0%nat = Some Euler_zero
    /\ scatteredScales this' !! 0%nat = Some (mkVector3 1 1 1)
    /\ scatteredPositions this' !! 0%nat = originalPositions this' !! 0%nat
    /\ scatteredRotations this' !! 0%nat = originalRotations this' !! 0%nat
    /\ scatteredScales this' !! 0%nat = originalScales this' !! 0%nat
    /\ objects this' !! 0%nat
       = Some (mkObject3D (mkVector3 0 0 0) Euler_zero (mkVector3 1 1 1)).
Proof.
  apply (scatterComponents_keeps_first "explosion" fourComponents 0%nat
           [1; 2; 3]%nat);
    [reflexivity | compute_done | reflexivity ..].
Defined.

(** The run of [scatterComponents] seen from a component after the
    first. *)
Lemma scatterComponents_scatters
    (pattern : string) (this : AssemblyAnimation) (c0 c : obj)
    (rest : list obj) (p : Vector3) (r : Euler) (sc : Vector3) :
  components this = c0 :: rest ->
  NoDup (c0 :: rest) ->
  originalPositions this !! c0 = Some p ->
  originalRotations this !! c0 = Some r ->
  originalScales this !! c0 = Some sc ->
  c ∈ rest ->
  exists this' pos k,
    scatterComponents pattern this = Some this'
    /\ components this' = components this
    /\ originalPositions this' = originalPositions this
    /\ originalRotations this' = originalRotations this
    /\ originalScales this' = originalScales this
    /\ scatteredPositions this' !! c = Some pos
    /\ scatteredRotations this' !! c
       = Some (mkEuler (randomStream this k * PI * 2)
                 (randomStream this (k + 1) * PI * 2)
                 (randomStream this (k + 2) * PI * 2))
    /\ scatteredScales this' !! c
       = Some (mkVector3 (1 / 100) (1 / 100) (1 / 100))
    /\ objects this' !! c
       = Some (mkObject3D pos
                 (mkEuler (randomStream this k * PI * 2)
                    (randomStream this (k + 1) * PI * 2)
                    (randomStream this (k + 2) * PI * 2))
                 (mkVector3 (1 / 100) (1 / 100) (1 / 100))).
Proof.
  intros Hl Hnd Hp Hr Hsc Hc. apply NoDup_cons in Hnd as [Hc0 Hnd].
  destruct (scatterComponents_first pattern this c0 rest p r sc)
    as (s2 & Hs2 & Hk); try assumption.
  unfold scatterComponents, tryForEach in *. rewrite Hl in *. simpl in *.
  unfold scatterOne in Hs2 at 1. unfold scatterOne at 1. simpl in *.
  rewrite Hp, Hr, Hsc in *.
  match type of Hs2 with
  | tryForEachFrom ?body rest 1%nat ?s1 = _ =>
      destruct (scatter_later_writes pattern
                  (Math_max3 (x (getSize (modelBounds this)))
                     (y (getSize (modelBounds this)))
                     (z (getSize (modelBounds this))) * 10)
                  rest c 1%nat s1)
        as (s2' & pos & k & Hs2' & _ & Hw); [lia | assumption | assumption |]
  end.
  rewrite Hs2 in Hs2'. injection Hs2' as <-.
  exists s2, pos, k. split; [exact Hs2 |].
  destruct Hk as ((K1 & _) & _ & (K2 & K3 & K4) & _).
  simpl in *. rewrite K1, K2, K3, K4, Hl. tauto.
Qed.

(** ** The claims on updateAssemblyProgress *)

(** C1 (as amended).  For a component of the list whose six records are
    stored, [updateAssemblyProgress(0)] writes exactly the scattered
    position and scale, and [updateAssemblyProgress(1)] exactly the
    original position and scale; the rotation written is the stored
    rotation taken to a quaternion and back to Euler angles, in both
    cases. *)
Theorem updateAssemblyProgress_boundary_poses
    (this : AssemblyAnimation) (c : obj)
    (sp : Vector3) (sr : Euler) (ss : Vector3)
    (tp : Vector3) (tr : Euler) (ts : Vector3) :
  c ∈ components this ->
  scatteredPositions this !! c = Some sp ->
  scatteredRotations this !! c = Some sr ->
  scatteredScales this !! c = Some ss ->
  originalPositions this !! c = Some tp ->
  originalRotations this !! c = Some tr ->
  originalScales this !! c = Some ts ->
  objects (updateAssemblyProgress 0 this) !! c
  = Some (mkObject3D sp (setFromQuaternion (setFromEuler sr)) ss)
  /\ objects (updateAssemblyProgress 1 this) !! c
     = Some (mkObject3D tp (setFromQuaternion (setFromEuler tr)) ts).
Proof.
  intros Hc Hsp Hsr Hss Htp Htr Hts. split.
  - rewrite updateAssemblyProgress_at_0 by assumption.
    unfold scatteredPose, getOr. now rewrite Hsp, Hsr, Hss.
  - rewrite updateAssemblyProgress_at_1 by assumption.
    unfold originalPose, getOr. now rewrite Htp, Htr, Hts.
Qed.

Lemma updateAssemblyProgress_boundary_poses_witness :
  objects (updateAssemblyProgress 0 fourComponents) !! 1%nat
  = Some (mkObject3D (mkVector3 10 (-5) 0)
            (setFromQuaternion (setFromEuler (mkEuler 1 3 5)))
            (mkVector3 (1 / 100) (1 / 100) (1 / 100)))
  /\ objects (updateAssemblyProgress 1 fourComponents) !! 1%nat
     = Some (mkObject3D (mkVector3 1 0 0)
               (setFromQuaternion (setFromEuler Euler_zero))
               (mkVector3 1 1 1)).
Proof.
  apply (updateAssemblyProgress_boundary_poses fourComponents 1%nat);
    [compute_done | reflexivity ..].
Defined.

(** C1 (as stated) fails on the rotation.  [scatterComponents] run on
    [fourComponents], whose random stream gives 1/2 each time, records for
    the last component the rotation (PI, PI, PI); after
    [updateAssemblyProgress(0)] the live rotation of that component is not
    its scattered rotation, because the second angle read back from a
    quaternion is at most PI/2. *)
Lemma updateAssemblyProgress_0_rotation_not_exact :
  exists this',
    scatterComponents "spiral" fourComponents = Some this'
    /\ 3%nat ∈ components this'
    /\ is_Some (scatteredPositions this' !! 3%nat)
    /\ scatteredRotations this' !! 3%nat
       = Some (mkEuler (1 / 2 * PI * 2) (1 / 2 * PI * 2) (1 / 2 * PI * 2))
    /\ is_Some (scatteredScales this' !! 3%nat)
    /\ is_Some (originalPositions this' !! 3%nat)
    /\ is_Some (originalRotations this' !! 3%nat)
    /\ is_Some (originalScales this' !! 3%nat)
    /\ rotation <$> objects (updateAssemblyProgress 0 this') !! 3%nat
       <> scatteredRotations this' !! 3%nat.
Proof.
  destruct (scatterComponents_scatters "spiral" fourComponents 0%nat 3%nat
              [1; 2; 3]%nat (mkVector3 0 0 0) Euler_zero (mkVector3 1 1 1))
    as (this' & pos & k & Hrun & Hl & Hop & Hor & Hos & Hsp & Hsr & Hss & _);
    [reflexivity | compute_done | reflexivity | reflexivity | reflexivity
    | compute_done |].
  cbn [randomStream fourComponents] in Hsr.
  exists this'. split; [exact Hrun |].
  split; [rewrite Hl; compute_done |].
  split; [eexists; exact Hsp |].
  split; [exact Hsr |].
  split; [eexists; exact Hss |].
  split; [rewrite Hop; eexists; reflexivity |].
  split; [rewrite Hor; eexists; reflexivity |].
  split; [rewrite Hos; eexists; reflexivity |].
  rewrite updateAssemblyProgress_at_0 by (rewrite Hl; compute_done).
  unfold scatteredPose, getOr.
  change (scatteredRotations this' !! 3%nat)
    with (scatteredRotations this' !! (3%nat : obj)).
  rewrite Hsr.
  cbn [fmap option_fmap option_map rotation].
  intros H. injection H as H.
  apply (f_equal ey) in H. cbn [ey] in H.
  match type of H with
  | ey (setFromQuaternion ?q) = _ =>
      pose proof (setFromQuaternion_ey_bound q) as [_ Hb]
  end.
  rewrite H in Hb. pose proof PI_RGT_0. lra.
Qed.

(** C2.  The component at index [i] of [n] is at the local progress 0
    before its slot, 1 from the end of its slot on, and
    (progress - i/n) / (1/n) inside it; the easing is 0 at 0, 1 at 1 and
    1 - 2^(-10 p) in between; and the live transform written is the
    interpolation of the scattered and the original transform at the eased
    value.  With four components at progress 0.6 the local progresses are
    1, 1, 0.4 and 0. *)
Theorem updateAssemblyProgress_schedule
    (this : AssemblyAnimation) (progress : R) (i : nat) (c : obj)
    (sp : Vector3) (sr : Euler) (ss : Vector3)
    (tp : Vector3) (tr : Euler) (ts : Vector3) :
  NoDup (components this) ->
  components this !! i = Some c ->
  scatteredPositions this !! c = Some sp ->
  scatteredRotations this !! c = Some sr ->
  scatteredScales this !! c = Some ss ->
  originalPositions this !! c = Some tp ->
  originalRotations this !! c = Some tr ->
  originalScales this !! c = Some ts ->
  let n := List.length (components this) in
  let p := componentProgress progress i n in
  (progress < INR i / INR n -> p = 0)
  /\ (progress >= (INR i + 1) / INR n -> p = 1)
  /\ (INR i / INR n <= progress < (INR i + 1) / INR n ->
      p = (progress - INR i / INR n) / (1 / INR n))
  /\ eased 0 = 0
  /\ eased 1 = 1
  /\ (forall q, 0 < q < 1 -> eased q = 1 - Rpower 2 (-10 * q))
  /\ objects (updateAssemblyProgress progress this) !! c
     = Some (mkObject3D
               (lerpVectors sp tp (eased p))
               (setFromQuaternion
                  (slerpQuaternions (setFromEuler sr) (setFromEuler tr)
                     (eased p)))
               (lerpVectors ss ts (eased p)))
  /\ (n = 4%nat -> progress = 6 / 10 ->
      componentProgress progress 0 n = 1
      /\ componentProgress progress 1 n = 1
      /\ componentProgress progress 2 n = 4 / 10
      /\ componentProgress progress 3 n = 0).
Proof.
  intros Hnd Hi Hsp Hsr Hss Htp Htr Hts n p.
  assert (i < n)%nat as Hlt by (eapply lookup_lt_Some; eassumption).
  split; [intros H; now apply componentProgress_before |].
  split; [intros H; now apply componentProgress_after |].
  split; [intros H; now apply componentProgress_within |].
  split; [apply eased_0 |].
  split; [apply eased_1 |].
  split; [apply eased_between |].
  split.
  - rewrite updateAssemblyProgress_eq. simpl.
    rewrite (liveAfter_lookup _ _ _ _ _ _ i c) by assumption.
    unfold animatedTransform, getOr.
    now rewrite Hsp, Hsr, Hss, Htp, Htr, Hts.
  - intros -> ->. repeat split.
    + apply componentProgress_after. simpl. lra.
    + apply componentProgress_after. simpl. lra.
    + rewrite componentProgress_within by (simpl; lia || lra).
      simpl. field.
    + apply componentProgress_before; [lia | simpl; lra].
Qed.

Lemma updateAssemblyProgress_schedule_witness :
  componentProgress (6 / 10) 2 4 = 4 / 10
  /\ objects (updateAssemblyProgress (6 / 10) fourComponents) !! 2%nat
     = Some (mkObject3D
               (lerpVectors (mkVector3 (-15) 0 0) (mkVector3 0 1 0)
                  (eased (componentProgress (6 / 10) 2 4)))
               (setFromQuaternion
                  (slerpQuaternions (setFromEuler (mkEuler 2 4 6))
                     (setFromEuler Euler_zero)
                     (eased (componentProgress (6 / 10) 2 4))))
               (lerpVectors (mkVector3 (1 / 100) (1 / 100) (1 / 100))
                  (mkVector3 1 1 1)
                  (eased (componentProgress (6 / 10) 2 4)))).
Proof.
  pose proof (updateAssemblyProgress_schedule fourComponents (6 / 10)
                2%nat 2%nat
                (mkVector3 (-15) 0 0) (mkEuler 2 4 6)
                (mkVector3 (1 / 100) (1 / 100) (1 / 100))
                (mkVector3 0 1 0) Euler_zero (mkVector3 1 1 1)
                ltac:(compute_done) eq_refl eq_refl eq_refl eq_refl
                eq_refl eq_refl eq_refl) as H.
  cbv zeta in H.
  destruct H as (_ & _ & _ & _ & _ & _ & Hlive & Hfour).
  split.
  - exact (proj1 (proj2 (proj2 (Hfour eq_refl eq_refl)))).
  - exact Hlive.
Defined.

Lemma updateAssemblyProgress_after_earlier this p (earlier : list R) :
  updateAssemblyProgress p
    (foldl (fun this q => updateAssemblyProgress q this) this earlier)
  = updateAssemblyProgress p this.
Proof.
  revert this. induction earlier as [| q earlier IH]; intros this; simpl.
  - reflexivity.
  - rewrite IH. apply updateAssemblyProgress_again.
Qed.

Lemma earlier_calls_write_objects_only this (earlier : list R) :
  exists m,
    foldl (fun this q => updateAssemblyProgress q this) this earlier
    = withObjects m this.
Proof.
  revert this. induction earlier as [| q earlier IH]; intros this; simpl.
  - exists (objects this). now rewrite withObjects_objects.
  - destruct (IH (updateAssemblyProgress q this)) as [m Hm].
    exists m. rewrite Hm, updateAssemblyProgress_eq. reflexivity.
Qed.

(** C3.  A call of [updateAssemblyProgress(p)] leaves the same state,
    whatever calls came before it: a second call with the same [p] changes
    nothing, and the result after any earlier calls is the result of the
    call alone.  The stored transforms are never written. *)
Theorem updateAssemblyProgress_idempotent
    (this : AssemblyAnimation) (p : R) (earlier : list R) :
  let before :=
    foldl (fun this q => updateAssemblyProgress q this) this earlier in
  updateAssemblyProgress p (updateAssemblyProgress p before)
  = updateAssemblyProgress p before
  /\ updateAssemblyProgress p before = updateAssemblyProgress p this
  /\ objects (updateAssemblyProgress p (updateAssemblyProgress p before))
     = objects (updateAssemblyProgress p this)
  /\ scatteredPositions before = scatteredPositions this
  /\ scatteredRotations before = scatteredRotations this
  /\ scatteredScales before = scatteredScales this
  /\ originalPositions before = originalPositions this
  /\ originalRotations before = originalRotations this
  /\ originalScales before = originalScales this
  /\ components before = components this.
Proof.
  intros before.
  pose proof (updateAssemblyProgress_after_earlier this p earlier) as Hsame.
  destruct (earlier_calls_write_objects_only this earlier) as [m Hm].
  fold before in Hsame, Hm.
  split; [apply updateAssemblyProgress_again |].
  split; [exact Hsame |].
  split; [now rewrite updateAssemblyProgress_again, Hsame |].
  rewrite Hm. repeat split; reflexivity.
Qed.

(** C4.  For a component with the slot [s, e), the local progress is
    strictly increasing in the global progress on [s, e), exactly 0 below
    [s] and exactly 1 from [e] on. *)
Theorem componentProgress_monotone_in_slot (index totalSlots : nat) :
  (index < totalSlots)%nat ->
  let s := INR index / INR totalSlots in
  let e := (INR index + 1) / INR totalSlots in
  (forall a b, s <= a -> a < b -> b < e ->
     componentProgress a index totalSlots
     < componentProgress b index totalSlots)
  /\ (forall g, g < s -> componentProgress g index totalSlots = 0)
  /\ (forall g, g >= e -> componentProgress g index totalSlots = 1).
Proof.
  intros Hi s e. repeat split.
  - intros a b Hs Hab He. now apply componentProgress_within_lt.
  - intros g Hg. now apply componentProgress_before.
  - intros g Hg. now apply componentProgress_after.
Qed.

Lemma componentProgress_monotone_in_slot_witness :
  componentProgress (5 / 10) 2 4 < componentProgress (6 / 10) 2 4
  /\ componentProgress (4 / 10) 2 4 = 0
  /\ componentProgress (75 / 100) 2 4 = 1.
Proof.
  pose proof (componentProgress_monotone_in_slot 2 4 ltac:(lia)) as H.
  cbv zeta in H. destruct H as (Hinc & Hlo & Hhi).
  split; [| split].
  - apply Hinc; simpl; lra.
  - apply Hlo; simpl; lra.
  - apply Hhi; simpl; lra.
Defined.

(** C10.  Below 0 every component is at the local progress 0 and the call
    leaves the state [updateAssemblyProgress(0)] leaves, every component at
    its scattered pose; from 1 on every component is at the local progress
    1 and the call leaves the state [updateAssemblyProgress(1)] leaves,
    every component at its original pose. *)
Theorem updateAssemblyProgress_clamps
    (this : AssemblyAnimation) (progress : R) :
  let n := List.length (components this) in
  (progress < 0 ->
   (forall i, (i < n)%nat -> componentProgress progress i n = 0)
   /\ updateAssemblyProgress progress this = updateAssemblyProgress 0 this
   /\ (forall c, c ∈ components this ->
         objects (updateAssemblyProgress progress this) !! c
         = Some (scatteredPose this c)))
  /\ (progress >= 1 ->
      (forall i, (i < n)%nat -> componentProgress progress i n = 1)
      /\ updateAssemblyProgress progress this = updateAssemblyProgress 1 this
      /\ (forall c, c ∈ components this ->
            objects (updateAssemblyProgress progress this) !! c
            = Some (originalPose this c))).
Proof.
  intros n. split; intros Hp.
  - assert (updateAssemblyProgress progress this
            = updateAssemblyProgress 0 this) as Heq.
    { apply updateAssemblyProgress_ext. intros i Hi.
      rewrite componentProgress_below_0, componentProgress_at_0 by assumption.
      reflexivity. }
    split; [intros i Hi; now apply componentProgress_below_0 |].
    split; [exact Heq |].
    intros c Hc. rewrite Heq. now apply updateAssemblyProgress_at_0.
  - assert (updateAssemblyProgress progress this
            = updateAssemblyProgress 1 this) as Heq.
    { apply updateAssemblyProgress_ext. intros i Hi.
      rewrite !componentProgress_from_1 by (assumption || lra).
      reflexivity. }
    split; [intros i Hi; now apply componentProgress_from_1 |].
    split; [exact Heq |].
    intros c Hc. rewrite Heq. now apply updateAssemblyProgress_at_1.
Qed.

Lemma updateAssemblyProgress_clamps_witness :
  updateAssemblyProgress (-1) fourComponents
  = updateAssemblyProgress 0 fourComponents
  /\ updateAssemblyProgress 2 fourComponents
     = updateAssemblyProgress 1 fourComponents.
Proof.
  split.
  - apply (updateAssemblyProgress_clamps fourComponents (-1)). lra.
  - apply (updateAssemblyProgress_clamps fourComponents 2). lra.
Defined.

(** C9 (as amended).  Whatever records are stored, the call writes for the
    component at index [i] a complete live transform: a missing position is
    read as the zero vector, a missing rotation as the zero rotation, a
    missing scattered scale as (0.01, 0.01, 0.01) and a missing original
    scale as (1, 1, 1). *)
Theorem updateAssemblyProgress_missing_records
    (this : AssemblyAnimation) (progress : R) (i : nat) (c : obj) :
  NoDup (components this) ->
  components this !! i = Some c ->
  let e :=
    eased (componentProgress progress i (List.length (components this))) in
  objects (updateAssemblyProgress progress this) !! c
  = Some (mkObject3D
            (lerpVectors
               (default Vector3_zero (scatteredPositions this !! c))
               (default Vector3_zero (originalPositions this !! c)) e)
            (setFromQuaternion
               (slerpQuaternions
                  (setFromEuler
                     (default Euler_zero (scatteredRotations this !! c)))
                  (setFromEuler
                     (default Euler_zero (originalRotations this !! c)))
                  e))
            (lerpVectors
               (default (mkVector3 (1 / 100) (1 / 100) (1 / 100))
                  (scatteredScales this !! c))
               (default (mkVector3 1 1 1) (originalScales this !! c)) e)).
Proof.
  intros Hnd Hi e. rewrite updateAssemblyProgress_eq. simpl.
  rewrite (liveAfter_lookup _ _ _ _ _ _ i c) by assumption.
  unfold animatedTransform, getOr.
  destruct (scatteredPositions this !! c), (originalPositions this !! c),
    (scatteredRotations this !! c), (originalRotations this !! c),
    (scatteredScales this !! c), (originalScales this !! c); reflexivity.
Qed.

Lemma updateAssemblyProgress_missing_records_witness :
  objects (updateAssemblyProgress 1 unrecorded) !! 0%nat
  = Some (mkObject3D
            (lerpVectors Vector3_zero Vector3_zero
               (eased (componentProgress 1 0 1)))
            (setFromQuaternion
               (slerpQuaternions (setFromEuler Euler_zero)
                  (setFromEuler Euler_zero)
                  (eased (componentProgress 1 0 1))))
            (lerpVectors (mkVector3 (1 / 100) (1 / 100) (1 / 100))
               (mkVector3 1 1 1) (eased (componentProgress 1 0 1)))).
Proof.
  apply (updateAssemblyProgress_missing_records unrecorded 1 0%nat 0%nat);
    [compute_done | reflexivity].
Defined.

(** C9 (as stated) fails for a missing original scale: with no record at
    all, [updateAssemblyProgress(1)] leaves the scale (1, 1, 1), not the
    interpolation in which the minified scale stands for both missing
    scales. *)
Lemma updateAssemblyProgress_missing_original_scale_not_minified :
  originalScales unrecorded !! 0%nat = None
  /\ scatteredScales unrecorded !! 0%nat = None
  /\ objects (updateAssemblyProgress 1 unrecorded) !! 0%nat
     = Some (mkObject3D Vector3_zero
               (setFromQuaternion (setFromEuler Euler_zero))
               (mkVector3 1 1 1))
  /\ objects (updateAssemblyProgress 1 unrecorded) !! 0%nat
     <> Some (mkObject3D
                (lerpVectors Vector3_zero Vector3_zero 1)
                (setFromQuaternion
                   (slerpQuaternions (setFromEuler Euler_zero)
                      (setFromEuler Euler_zero) 1))
                (lerpVectors (mkVector3 (1 / 100) (1 / 100) (1 / 100))
                   (mkVector3 (1 / 100) (1 / 100) (1 / 100)) 1)).
Proof.
  split; [reflexivity |]. split; [reflexivity |].
  assert (objects (updateAssemblyProgress 1 unrecorded) !! 0%nat
          = Some (mkObject3D Vector3_zero
                    (setFromQuaternion (setFromEuler Euler_zero))
                    (mkVector3 1 1 1))) as Hlive.
  { rewrite updateAssemblyProgress_at_1 by compute_done. reflexivity. }
  split; [exact Hlive |].
  rewrite Hlive, !lerpVectors_1, slerpQuaternions_1.
  intros H.
  apply (f_equal (fun o => match o with
                           | Some o => x (scale o)
                           | None => 0
                           end)) in H.
  cbn [scale x] in H. lra.
Qed.

(** ** frameModel *)

(** The camera [frameModel] leaves for bounds that are not empty. *)
Lemma frameModel_camera (page : Page) (this : AssemblyAnimation) :
  isEmpty (modelBounds this) = false ->
  camera (frameModel page this)
  = let center := getCenter (modelBounds this) in
    let maxDim := maxDimensionOf (modelBounds this) in
    let frustumSize := (maxDim * (15 / 10)) / 2 in
    mkCamera (- frustumSize * aspectOf page / 2)
             (frustumSize * aspectOf page / 2)
             (frustumSize / 2) (- frustumSize / 2) 1
             (mkVector3 (x center - maxDim * 2) (y center + maxDim * 2)
                        (z center + maxDim * 2))
             center.
Proof. intros Hne. unfold frameModel. rewrite Hne. reflexivity. Qed.

(** C8 (as amended).  For bounds that are not empty, [frameModel] sets the
    frustum height [top - bottom] to (maxDimension * 1.5) / 2, that is
    [top] to half of it and [bottom] to the opposite, [left] and [right] to
    the same half scaled by the aspect ratio of the container (of the
    window when the page has no container), and the zoom to 1. *)
Theorem frameModel_frustum (page : Page) (this : AssemblyAnimation) :
  isEmpty (modelBounds this) = false ->
  let maxDimension := maxDimensionOf (modelBounds this) in
  let frustumSize := (maxDimension * (15 / 10)) / 2 in
  let framed := camera (frameModel page this) in
  top framed = frustumSize / 2
  /\ bottom framed = - top framed
  /\ top framed - bottom framed = frustumSize
  /\ right framed = frustumSize * aspectOf page / 2
  /\ left framed = - right framed
  /\ zoom framed = 1.
Proof.
  intros Hne maxDimension frustumSize framed.
  subst framed. rewrite frameModel_camera by assumption.
  cbv zeta. fold maxDimension. fold frustumSize. cbn [top bottom left right zoom].
  repeat split; try reflexivity; unfold Rdiv; lra.
Qed.

Lemma Math_max3_same a : Math_max3 a a a = a.
Proof. unfold Math_max3, Rmax. repeat destruct (Rle_dec _ _); lra. Qed.

Lemma fourComponents_maxDimension :
  maxDimensionOf (modelBounds fourComponents) = 2.
Proof.
  unfold maxDimensionOf. simpl.
  rewrite !ltb_false by lra. simpl.
  rewrite Math_max3_same. ring.
Qed.

Lemma fourComponents_bounds_not_empty :
  isEmpty (modelBounds fourComponents) = false.
Proof. simpl. now rewrite !ltb_false by lra. Qed.

Lemma frameModel_frustum_witness :
  top (camera (frameModel (mkPage (Some (800, 600)) (1024, 768))
                 fourComponents))
  = (maxDimensionOf (modelBounds fourComponents) * (15 / 10)) / 2 / 2
  /\ zoom (camera (frameModel (mkPage (Some (800, 600)) (1024, 768))
                     fourComponents)) = 1.
Proof.
  pose proof (frameModel_frustum (mkPage (Some (800, 600)) (1024, 768))
                fourComponents fourComponents_bounds_not_empty) as H.
  cbv zeta in H. destruct H as (Htop & _ & _ & _ & _ & Hzoom).
  split; [exact Htop | exact Hzoom].
Defined.

(** C8 (as stated) fails: for the bounds of [fourComponents], whose largest
    dimension is 2, [top] is 0.75 and not (2 * 1.5) / 2. *)
Lemma frameModel_top_is_not_half_of_padded_dimension :
  isEmpty (modelBounds fourComponents) = false
  /\ top (camera (frameModel (mkPage (Some (800, 600)) (1024, 768))
                    fourComponents))
     <> (maxDimensionOf (modelBounds fourComponents) * (15 / 10)) / 2.
Proof.
  split; [apply fourComponents_bounds_not_empty |].
  rewrite frameModel_camera by apply fourComponents_bounds_not_empty.
  cbv zeta. cbn [top]. rewrite fourComponents_maxDimension. lra.
Qed.

(** ** processModel *)

Lemma processCandidate_discards center minComponentSize node this :
  componentSize node < minComponentSize ->
  processCandidate center minComponentSize node this = this.
Proof. intros H. unfold processCandidate. now rewrite ltb_true. Qed.

Lemma processCandidate_retains center minComponentSize node this :
  ~ componentSize node < minComponentSize ->
  processCandidate center minComponentSize node this
  = addComponent center node this.
Proof. intros H. unfold processCandidate. now rewrite ltb_false. Qed.

Lemma kept_true minComponentSize node :
  kept minComponentSize node = true
  <-> ~ componentSize node < minComponentSize.
Proof.
  unfold kept, ltb.
  destruct (Rlt_dec (componentSize node) minComponentSize); simpl;
    split; intros; (tauto || discriminate).
Qed.

(** The second loop is the loop over the kept candidates. *)
Lemma processCandidates_kept center minComponentSize cands this :
  foldl (fun this node => processCandidate center minComponentSize node this)
        this cands
  = foldl (fun this node => addComponent center node this)
          this (List.filter (kept minComponentSize) cands).
Proof.
  revert this. induction cands as [| node cands IH]; intros this; simpl.
  - reflexivity.
  - rewrite IH. unfold processCandidate, kept.
    destruct (ltb (componentSize node) minComponentSize); reflexivity.
Qed.

Lemma addComponent_wellFormed center node this :
  wellFormed this -> wellFormed (addComponent center node this).
Proof.
  intros [Hnd Hrec]. split; simpl.
  - apply NoDup_app. split; [assumption |]. split.
    + intros c Hc Hc'. apply list_elem_of_singleton in Hc'. subst c.
      destruct (Hrec _ Hc) as [Hlt _]. lia.
    + apply NoDup_singleton.
  - intros c Hc. apply elem_of_app in Hc as [Hc | Hc].
    + destruct (Hrec _ Hc) as (Hlt & Hp & Hr & Hs).
      assert (nextObject this <> c) as Hne by lia.
      rewrite !lookup_insert_ne by assumption.
      repeat split; (lia || assumption).
    + apply list_elem_of_singleton in Hc. subst c.
      rewrite !lookup_insert_eq. repeat split; (lia || eauto).
Qed.

Lemma addComponents_wellFormed center l this :
  wellFormed this ->
  wellFormed (foldl (fun this node => addComponent center node this) this l).
Proof.
  revert this. induction l as [| node l IH]; intros this Hwf; simpl.
  - assumption.
  - apply IH. now apply addComponent_wellFormed.
Qed.

(** The groups the loop pushes are built from the kept candidates, in
    order; the loop does not touch the camera, the bounds, the scattered
    records or the animation flag. *)
Lemma addComponents_effect center l this :
  let this' := foldl (fun this node => addComponent center node this) this l in
  (componentGroups this').*2 = (componentGroups this).*2 ++ l
  /\ List.length (components this')
     = (List.length (components this) + List.length l)%nat
  /\ camera this' = camera this
  /\ controlsTarget this' = controlsTarget this
  /\ modelBounds this' = modelBounds this
  /\ isAnimating this' = isAnimating this.
Proof.
  revert this. induction l as [| node l IH]; intros this; simpl.
  - rewrite app_nil_r. repeat split; lia.
  - destruct (IH (addComponent center node this))
      as (Hg & Hlen & Hc & Ht & Hb & Ha).
    cbv zeta in *. rewrite Hg, Hlen, Hc, Ht, Hb, Ha. simpl.
    rewrite fmap_app, length_app. simpl.
    rewrite <- app_assoc. simpl. repeat split; lia.
Qed.

(** The sort is a permutation. *)
Lemma insertBySize_perm size a l : insertBySize size a l ≡ₚ a :: l.
Proof.
  induction l as [| b l IH]; simpl.
  - reflexivity.
  - destruct (ltb 0 (size b - size a)).
    + rewrite IH. apply Permutation_swap.
    + reflexivity.
Qed.

Lemma sortBySize_perm size l : sortBySize size l ≡ₚ l.
Proof.
  induction l as [| a l IH]; simpl.
  - reflexivity.
  - unfold sortBySize in *. simpl. rewrite insertBySize_perm. now rewrite IH.
Qed.

Lemma scatterComponents_wellFormed (pattern : string) this :
  wellFormed this ->
  exists this',
    scatterComponents pattern this = Some this'
    /\ wellFormed this'
    /\ components this' = components this
    /\ componentGroups this' = componentGroups this
    /\ camera this' = camera this
    /\ controlsTarget this' = controlsTarget this
    /\ modelBounds this' = modelBounds this.
Proof.
  intros [Hnd Hrec].
  destruct (components this) as [| c rest] eqn:Hl.
  - exists this. rewrite scatterComponents_nothing by assumption.
    unfold wellFormed. rewrite Hl. tauto.
  - apply NoDup_cons in Hnd as [Hc Hnd].
    destruct (Hrec c) as (Hlt & [p Hp] & [r Hr] & [sc Hsc]);
      [apply elem_of_cons; tauto |].
    destruct (scatterComponents_first pattern this c rest p r sc)
      as (s2 & Hs2 & Hk); try assumption.
    exists s2. split; [exact Hs2 |].
    destruct Hk as ((K1 & K1' & K1'') & (K2 & K3 & K4 & _)
                    & (K5 & K6 & K7) & _).
    simpl in *.
    split; [| rewrite Hl in K1; tauto].
    unfold wellFormed. rewrite K1, K1'', K5, K6, K7, Hl.
    split; [apply NoDup_cons; tauto | exact Hrec].
Qed.

Lemma frameModel_fields page this :
  components (frameModel page this) = components this
  /\ componentGroups (frameModel page this) = componentGroups this
  /\ modelBounds (frameModel page this) = modelBounds this
  /\ isAnimating (frameModel page this) = isAnimating this
  /\ objects (frameModel page this) = objects this
  /\ scatteredPositions (frameModel page this) = scatteredPositions this
  /\ scatteredRotations (frameModel page this) = scatteredRotations this
  /\ scatteredScales (frameModel page this) = scatteredScales this
  /\ (wellFormed this -> wellFormed (frameModel page this)).
Proof.
  unfold frameModel. destruct (isEmpty (modelBounds this)); simpl; tauto.
Qed.

Lemma frameModel_nothing page this :
  isEmpty (modelBounds this) = true -> frameModel page this = this.
Proof. intros H. unfold frameModel. now rewrite H. Qed.

(** [processModel] returns on every well-formed state, and the groups it
    pushes are those of the candidates the size filter keeps. *)
Lemma processModel_returns meshes page now this :
  wellFormed this ->
  exists this',
    processModel meshes page now this = Some this'
    /\ wellFormed this'
    /\ (componentGroups this').*2
       = (componentGroups this).*2
         ++ List.filter (kept (minComponentSizeOf (boundsOf (candidates meshes))))
              (candidates meshes)
    /\ List.length (components this')
       = (List.length (components this)
          + List.length
              (List.filter
                 (kept (minComponentSizeOf (boundsOf (candidates meshes))))
                 (candidates meshes)))%nat
    /\ isAnimating this' = true.
Proof.
  intros Hwf. unfold processModel.
  rewrite processCandidates_kept.
  set (bounds := boundsOf (candidates meshes)).
  set (l := List.filter _ _).
  set (s0 := setBoundsAndComponents bounds (components this) this).
  assert (wellFormed s0) as Hwf0 by exact Hwf.
  pose proof (addComponents_wellFormed (getCenter bounds) l s0 Hwf0) as Hwf1.
  pose proof (addComponents_effect (getCenter bounds) l s0) as Heff.
  cbv zeta in Heff. destruct Heff as (Hg & Hlen & _).
  set (s1 := foldl _ s0 l) in *.
  set (s2 := setBoundsAndComponents _ _ s1).
  assert (wellFormed s2) as Hwf2.
  { destruct Hwf1 as [Hnd Hrec]. split; simpl.
    - now rewrite sortBySize_perm.
    - intros c Hc. rewrite sortBySize_perm in Hc. now apply Hrec. }
  destruct (frameModel_fields page s2)
    as (F1 & F2 & _ & _ & _ & _ & _ & _ & Fwf).
  destruct (scatterComponents_wellFormed "spiral" (frameModel page s2)
              (Fwf Hwf2)) as (s4 & Hs4 & Hwf4 & K1 & K2 & _).
  rewrite Hs4. exists (startAnimation now s4).
  split; [reflexivity |]. split; [exact Hwf4 |]. simpl.
  rewrite K1, K2, F1, F2. simpl.
  rewrite sortBySize_perm, Hg, Hlen. tauto.
Qed.

(** C7.  With minSize = maxModelDimension * 0.02, a candidate is discarded
    when its diagonal is strictly below minSize and is retained otherwise,
    in particular when its diagonal is exactly minSize; the groups
    [processModel] pushes are those of the candidates whose diagonal is not
    below minSize. *)
Theorem processModel_size_filter
    (meshes : list SceneMesh) (page : Page) (now : R)
    (this : AssemblyAnimation) :
  wellFormed this ->
  let componentMap := candidates meshes in
  let minSize := maxDimensionOf (boundsOf componentMap) * (2 / 100) in
  (forall center node s,
     componentSize node < minSize ->
     processCandidate center minSize node s = s)
  /\ (forall center node s,
        componentSize node >= minSize ->
        processCandidate center minSize node s = addComponent center node s)
  /\ (forall center node s,
        componentSize node = minSize ->
        processCandidate center minSize node s = addComponent center node s)
  /\ exists this',
       processModel meshes page now this = Some this'
       /\ (componentGroups this').*2
          = (componentGroups this).*2
            ++ List.filter (kept minSize) componentMap
       /\ List.length (components this')
          = (List.length (components this)
             + List.length (List.filter (kept minSize) componentMap))%nat
       /\ forall node,
            In node (List.filter (kept minSize) componentMap)
            <-> In node componentMap /\ ~ componentSize node < minSize.
Proof.
  intros Hwf componentMap minSize.
  split; [intros; now apply processCandidate_discards |].
  split; [intros; apply processCandidate_retains; lra |].
  split; [intros; apply processCandidate_retains; lra |].
  destruct (processModel_returns meshes page now this Hwf)
    as (r & Hr & _ & Hg & Hlen & _).
  exists r. split; [exact Hr |]. split; [exact Hg |]. split; [exact Hlen |].
  intros node. rewrite filter_In, kept_true. reflexivity.
Qed.

Lemma fresh_wellFormed : wellFormed fresh.
Proof.
  split; simpl.
  - apply NoDup_nil_2.
  - intros c Hc. now apply elem_of_nil in Hc.
Qed.

Lemma processModel_size_filter_witness :
  exists this',
    processModel [cubeAt 0] page800 0 fresh = Some this'
    /\ (componentGroups this').*2
       = (componentGroups fresh).*2
         ++ List.filter
              (kept (maxDimensionOf (boundsOf (candidates [cubeAt 0]))
                     * (2 / 100)))
              (candidates [cubeAt 0]).
Proof.
  destruct (processModel_size_filter [cubeAt 0] page800 0 fresh)
    as (_ & _ & _ & this' & Hrun & Hgroups & _).
  - split.
    + apply NoDup_nil_2.
    + intros c Hc. exfalso. revert Hc. apply not_elem_of_nil.
  - exists this'. split; [exact Hrun | exact Hgroups].
Defined.

(** ** A model without a surviving component *)

Lemma processCandidates_none center minComponentSize cands this :
  Forall (fun node => componentSize node < minComponentSize) cands ->
  foldl (fun this node => processCandidate center minComponentSize node this)
        this cands
  = this.
Proof.
  intros H. induction H as [| node cands Hnode _ IH]; simpl.
  - reflexivity.
  - now rewrite processCandidate_discards.
Qed.

(** What [processModel] does when the size filter keeps no candidate and
    the list of components was empty. *)
Lemma processModel_none_kept meshes page now this :
  components this = [] ->
  Forall (fun node =>
            componentSize node
            < minComponentSizeOf (boundsOf (candidates meshes)))
         (candidates meshes) ->
  processModel meshes page now this
  = Some (startAnimation now
            (frameModel page
               (setBoundsAndComponents
                  (translate (boundsOf (candidates meshes))
                     (multiplyScalar
                        (getCenter (boundsOf (candidates meshes))) (-1)))
                  [] this))).
Proof.
  intros Hl Hnone. unfold processModel.
  rewrite processCandidates_none by assumption.
  cbn [components setBoundsAndComponents]. rewrite Hl.
  change (sortBySize _ []) with (@nil obj).
  match goal with
  | |- context [scatterComponents _ ?s] =>
      rewrite (scatterComponents_nothing "spiral" s)
  end.
  - reflexivity.
  - now destruct (frameModel_fields page
                    (setBoundsAndComponents
                       (translate (boundsOf (candidates meshes))
                          (multiplyScalar
                             (getCenter (boundsOf (candidates meshes))) (-1)))
                       []
                       (setBoundsAndComponents (boundsOf (candidates meshes))
                          [] this))) as (-> & _).
Qed.

Lemma isEmpty_translate b offset :
  isEmpty (translate b offset) = isEmpty b.
Proof.
  destruct b as [| mn mx]; simpl; [reflexivity |].
  unfold ltb.
  repeat match goal with
         | |- context [Rlt_dec ?a ?b] => destruct (Rlt_dec a b)
         end; simpl; try reflexivity; exfalso; lra.
Qed.

Lemma updateAssemblyProgress_nothing p this :
  components this = [] -> updateAssemblyProgress p this = this.
Proof.
  intros Hl. rewrite updateAssemblyProgress_eq, Hl. simpl.
  apply withObjects_objects.
Qed.

(** C6 (as amended).  When the list of components was empty and the size
    filter keeps no candidate, [processModel] returns with an empty list;
    [scatterComponents] and [updateAssemblyProgress] change nothing on an
    empty list, and no live transform or scattered record is written;
    [frameModel] changes nothing when the bounds are empty, which is the
    case of a model without a mesh, and then the camera is the one before
    the call; and [startAnimation] is called all the same: the result has
    [isAnimating] set, the start time and the duration 4000. *)
Theorem processModel_no_component_kept
    (meshes : list SceneMesh) (page : Page) (now : R)
    (this : AssemblyAnimation) :
  components this = [] ->
  Forall (fun node =>
            componentSize node
            < minComponentSizeOf (boundsOf (candidates meshes)))
         (candidates meshes) ->
  exists this',
    processModel meshes page now this = Some this'
    /\ components this' = []
    /\ objects this' = objects this
    /\ scatteredPositions this' = scatteredPositions this
    /\ scatteredRotations this' = scatteredRotations this
    /\ scatteredScales this' = scatteredScales this
    /\ isAnimating this' = true
    /\ startTime this' = now
    /\ animationDuration this' = 4000
    /\ (isEmpty (boundsOf (candidates meshes)) = true ->
        camera this' = camera this
        /\ controlsTarget this' = controlsTarget this)
    /\ (meshes = [] -> camera this' = camera this)
    /\ (forall pattern s,
          components s = [] -> scatterComponents pattern s = Some s)
    /\ (forall s, isEmpty (modelBounds s) = true -> frameModel page s = s)
    /\ (forall p, updateAssemblyProgress p this' = this').
Proof.
  intros Hl Hnone.
  rewrite processModel_none_kept by assumption.
  set (s2 := setBoundsAndComponents _ [] this).
  destruct (frameModel_fields page s2)
    as (F1 & _ & _ & _ & F5 & F6 & F7 & F8 & _).
  assert (isEmpty (boundsOf (candidates meshes)) = true ->
          frameModel page s2 = s2) as Hempty.
  { intros He. apply frameModel_nothing. subst s2. simpl.
    now rewrite isEmpty_translate. }
  eexists. split; [reflexivity |]. simpl.
  rewrite F1, F5, F6, F7, F8. simpl.
  repeat split; try reflexivity.
  - now rewrite Hempty.
  - now rewrite Hempty.
  - intros ->. now rewrite Hempty.
  - intros pattern s Hs. now apply scatterComponents_nothing.
  - intros s Hs. now apply frameModel_nothing.
  - intros p. apply updateAssemblyProgress_nothing. simpl. exact F1.
Qed.

Lemma processModel_no_component_kept_witness :
  exists this',
    processModel [] page800 0 fresh = Some this'
    /\ components this' = []
    /\ isAnimating this' = true
    /\ camera this' = camera fresh.
Proof.
  destruct (processModel_no_component_kept [] page800 0 fresh eq_refl
              (Forall_nil_2 _))
    as (this' & Hrun & Hl & _ & _ & _ & _ & Hanim & _ & _ & _ & Hcam & _).
  exists this'. split; [exact Hrun |]. split; [exact Hl |].
  split; [exact Hanim | exact (Hcam eq_refl)].
Defined.

Lemma getSize_translate b offset : getSize (translate b offset) = getSize b.
Proof.
  destruct b as [| mn mx]; [reflexivity |].
  change (translate (Box3_of mn mx) offset)
    with (Box3_of (add mn offset) (add mx offset)).
  unfold getSize.
  change (Box3_of (add mn offset) (add mx offset))
    with (translate (Box3_of mn mx) offset).
  rewrite isEmpty_translate.
  destruct (isEmpty (Box3_of mn mx)); [reflexivity |].
  unfold sub, add. simpl. f_equal; ring.
Qed.

Lemma Math_max3_first a b c : b <= a -> c <= a -> Math_max3 a b c = a.
Proof.
  intros Hb Hc. unfold Math_max3.
  rewrite (Rmax_left a b) by assumption. now apply Rmax_left.
Qed.

Lemma sqrt_lt_bound (a b : R) : 0 <= a -> 0 < b -> a < b * b -> sqrt a < b.
Proof.
  intros Ha Hb Hab. rewrite <- (sqrt_square b) by lra.
  apply sqrt_lt_1; nra.
Qed.

Lemma twoSmallCubes_bounds :
  boundsOf (candidates twoSmallCubes)
  = Box3_of (mkVector3 0 0 0) (mkVector3 1000 1 1).
Proof.
  cbv [boundsOf candidates twoSmallCubes cubeAt foldl take MAX_COMPONENTS
       union vmin vmax Rmin Rmax x y z worldBoxMin worldBoxMax].
  repeat match goal with
         | |- context [Rle_dec ?a ?b] => destruct (Rle_dec a b)
         end; try (exfalso; lra).
  f_equal. f_equal. lra.
Qed.

Lemma twoSmallCubes_minComponentSize :
  minComponentSizeOf (boundsOf (candidates twoSmallCubes)) = 20.
Proof.
  rewrite twoSmallCubes_bounds.
  unfold minComponentSizeOf, maxDimensionOf, getSize, isEmpty.
  cbn [x y z]. rewrite !ltb_false by lra.
  cbn [orb]. unfold sub. cbn [x y z].
  rewrite Math_max3_first by lra. lra.
Qed.

Lemma cubeAt_componentSize d : componentSize (cubeAt d) < 20.
Proof.
  unfold componentSize, cubeAt, distanceTo. simpl.
  apply sqrt_lt_bound; nra.
Qed.

(** C6 (as stated) fails: each of the two cubes has a diagonal below 2% of
    the thousand units the model spans, so no component survives; yet
    [processModel] frames the camera on the bounds of the two cubes and
    sets [isAnimating]. *)
Lemma processModel_all_discarded_frames_and_starts :
  exists this',
    processModel twoSmallCubes page800 0 fresh = Some this'
    /\ components this' = []
    /\ isAnimating this' = true
    /\ top (camera fresh) = 20
    /\ top (camera this') = 375.
Proof.
  eexists. split.
  - apply processModel_none_kept; [reflexivity |].
    rewrite twoSmallCubes_minComponentSize.
    repeat constructor; apply cubeAt_componentSize.
  - set (s2 := setBoundsAndComponents _ [] fresh).
    assert (isEmpty (modelBounds s2) = false) as Hne.
    { subst s2. cbn [modelBounds setBoundsAndComponents].
      rewrite isEmpty_translate, twoSmallCubes_bounds.
      unfold isEmpty. cbn [x y z]. now rewrite !ltb_false by lra. }
    assert (maxDimensionOf (modelBounds s2) = 1000) as Hmax.
    { subst s2. cbn [modelBounds setBoundsAndComponents].
      unfold maxDimensionOf.
      rewrite getSize_translate.
      pose proof twoSmallCubes_minComponentSize as H.
      unfold minComponentSizeOf, maxDimensionOf in H. lra. }
    destruct (frameModel_fields page800 s2) as (F1 & _).
    split; [exact F1 |]. split; [reflexivity |].
    split; [simpl; lra |].
    cbn [camera startAnimation].
    rewrite frameModel_camera by assumption.
    cbv zeta. cbn [top]. rewrite Hmax. lra.
Qed.

(** * Further properties *)

(** Turns [INR] of a numeral into the real numeral. *)
Ltac real_literals :=
  rewrite ?INR_IZR_INZ; cbv [Z.of_nat Pos.of_succ_nat Pos.succ].

(** ** The schedule of updateAssemblyProgress *)

Lemma componentProgress_range (progress : R) (index totalSlots : nat) :
  (index < totalSlots)%nat ->
  0 <= componentProgress progress index totalSlots <= 1.
Proof.
  intros Hi.
  destruct (Rlt_le_dec progress (INR index / INR totalSlots)) as [Hlt | Hge].
  - rewrite componentProgress_before by assumption. lra.
  - destruct (Rlt_le_dec progress ((INR index + 1) / INR totalSlots))
      as [Hlt' | Hge'].
    + pose proof (componentProgress_within_range progress index totalSlots
                    Hi (conj Hge Hlt')). lra.
    + rewrite componentProgress_after by lra. lra.
Qed.

Lemma componentProgress_positive (progress : R) (index totalSlots : nat) :
  (index < totalSlots)%nat ->
  0 < componentProgress progress index totalSlots ->
  INR index / INR totalSlots < progress.
Proof.
  intros Hi Hpos.
  destruct (Rlt_le_dec (INR index / INR totalSlots) progress)
    as [Hlt | Hge]; [assumption | exfalso].
  destruct (Rle_lt_or_eq_dec _ _ Hge) as [Hlt | Heq].
  - rewrite componentProgress_before in Hpos by assumption. lra.
  - pose proof (slot_nonempty index totalSlots Hi) as Hse.
    rewrite componentProgress_within in Hpos by (auto; lra).
    rewrite Heq in Hpos. unfold Rminus in Hpos.
    rewrite Rplus_opp_r in Hpos. unfold Rdiv in Hpos at 1.
    rewrite Rmult_0_l in Hpos. lra.
Qed.

Lemma slots_in_order (i j totalSlots : nat) :
  (i < j)%nat -> (j < totalSlots)%nat ->
  (INR i + 1) / INR totalSlots <= INR j / INR totalSlots.
Proof.
  intros Hij Hj.
  pose proof (totalSlots_pos j totalSlots Hj) as Hn.
  pose proof (Rinv_0_lt_compat _ Hn) as Hk.
  assert (INR i + 1 <= INR j) as Hle.
  { rewrite <- S_INR. apply le_INR. lia. }
  unfold Rdiv. nra.
Qed.

(** X1.  The slots do not overlap: as soon as a component has left the
    local progress 0, every component before it in the list is at 1; and
    as long as a component is below 1, every component after it is at
    0. *)
Theorem componentProgress_one_at_a_time
    (progress : R) (i j totalSlots : nat) :
  (i < j)%nat -> (j < totalSlots)%nat ->
  (0 < componentProgress progress j totalSlots ->
   componentProgress progress i totalSlots = 1)
  /\ (componentProgress progress i totalSlots < 1 ->
      componentProgress progress j totalSlots = 0).
Proof.
  intros Hij Hj.
  pose proof (slots_in_order i j totalSlots Hij Hj) as Hord.
  split.
  - intros Hpos. apply componentProgress_positive in Hpos; [| assumption].
    apply componentProgress_after. lra.
  - intros Hlt.
    destruct (Rlt_le_dec progress (INR j / INR totalSlots)) as [Hb | Hge].
    + now apply componentProgress_before.
    + rewrite componentProgress_after in Hlt by lra. lra.
Qed.

Lemma componentProgress_one_at_a_time_witness :
  componentProgress (6 / 10) 1 4 = 1
  /\ componentProgress (6 / 10) 3 4 = 0.
Proof.
  split.
  - apply (componentProgress_one_at_a_time (6 / 10) 1 2 4); [lia | lia |].
    rewrite componentProgress_within; real_literals; (lia || lra).
  - apply (componentProgress_one_at_a_time (6 / 10) 2 3 4); [lia | lia |].
    rewrite componentProgress_within; real_literals; (lia || lra).
Defined.

Lemma componentProgress_nondecreasing (a b : R) (index totalSlots : nat) :
  (index < totalSlots)%nat ->
  a <= b ->
  componentProgress a index totalSlots
  <= componentProgress b index totalSlots.
Proof.
  intros Hi Hab.
  pose proof (componentProgress_range a index totalSlots Hi) as Ha.
  pose proof (componentProgress_range b index totalSlots Hi) as Hb.
  destruct (Rlt_le_dec a (INR index / INR totalSlots)) as [Hlo | Hs].
  { rewrite (componentProgress_before a) by assumption. lra. }
  destruct (Rlt_le_dec b ((INR index + 1) / INR totalSlots)) as [He | Hhi].
  - destruct (Rle_lt_or_eq_dec _ _ Hab) as [Hlt | ->]; [| lra].
    apply Rlt_le. now apply componentProgress_within_lt.
  - rewrite (componentProgress_after b) by lra. lra.
Qed.

(** X2.  The local progress of a component stays in [0, 1] and never
    decreases when the global progress increases, over the whole real
    line. *)
Theorem componentProgress_bounded_monotone
    (a b : R) (index totalSlots : nat) :
  (index < totalSlots)%nat ->
  a <= b ->
  0 <= componentProgress a index totalSlots
  /\ componentProgress a index totalSlots
     <= componentProgress b index totalSlots
  /\ componentProgress b index totalSlots <= 1.
Proof.
  intros Hi Hab.
  pose proof (componentProgress_range a index totalSlots Hi) as Ha.
  pose proof (componentProgress_range b index totalSlots Hi) as Hb.
  split; [lra |]. split; [| lra].
  now apply componentProgress_nondecreasing.
Qed.

Lemma componentProgress_bounded_monotone_witness :
  0 <= componentProgress (55 / 100) 2 4
  /\ componentProgress (55 / 100) 2 4 <= componentProgress (9 / 10) 2 4
  /\ componentProgress (9 / 10) 2 4 <= 1.
Proof.
  apply (componentProgress_bounded_monotone (55 / 100) (9 / 10) 2 4);
    [lia | lra].
Defined.

(** ** The easing *)

Lemma Rpower_2_neg (e : R) : e < 0 -> 0 < Rpower 2 e < 1.
Proof.
  intros He. split.
  - unfold Rpower. apply exp_pos.
  - rewrite <- (Rpower_O 2) by lra. apply Rpower_lt; lra.
Qed.

Lemma eased_interior (p : R) : 0 < p < 1 -> 0 < eased p < 1.
Proof.
  intros Hp. rewrite eased_between by assumption.
  pose proof (Rpower_2_neg (-10 * p)) as H. lra.
Qed.

Lemma eased_increasing (p q : R) :
  0 <= p -> p < q -> q <= 1 -> eased p < eased q.
Proof.
  intros Hp Hpq Hq.
  destruct (Rle_lt_or_eq_dec _ _ Hp) as [Hp0 | <-].
  - destruct (Rle_lt_or_eq_dec _ _ Hq) as [Hq1 | ->].
    + rewrite !eased_between by lra.
      pose proof (Rpower_lt 2 (-10 * q) (-10 * p)) as H. lra.
    + rewrite eased_1. pose proof (eased_interior p). lra.
  - rewrite eased_0.
    destruct (Rle_lt_or_eq_dec _ _ Hq) as [Hq1 | ->].
    + pose proof (eased_interior q). lra.
    + rewrite eased_1. lra.
Qed.

(** X3.  On [0, 1] the easing stays in [0, 1] and is strictly increasing;
    it is 0 only at 0 and 1 only at 1. *)
Theorem eased_bounded_increasing (p q : R) :
  0 <= p -> p <= q -> q <= 1 ->
  0 <= eased p
  /\ eased p <= eased q
  /\ eased q <= 1
  /\ (p < q -> eased p < eased q)
  /\ (eased p = 0 -> p = 0)
  /\ (eased q = 1 -> q = 1).
Proof.
  intros Hp Hpq Hq.
  assert (forall r, 0 <= r <= 1 -> 0 <= eased r <= 1) as Hrange.
  { intros r [Hr0 Hr1].
    destruct (Rle_lt_or_eq_dec _ _ Hr0) as [H0 | <-];
      [| rewrite eased_0; lra].
    destruct (Rle_lt_or_eq_dec _ _ Hr1) as [H1 | ->];
      [| rewrite eased_1; lra].
    pose proof (eased_interior r). lra. }
  pose proof (Hrange p) as Hep. pose proof (Hrange q) as Heq.
  split; [lra |]. split.
  { destruct (Rle_lt_or_eq_dec _ _ Hpq) as [Hlt | ->]; [| lra].
    apply Rlt_le. apply eased_increasing; lra. }
  split; [lra |].
  split; [intros Hlt; apply eased_increasing; lra |].
  split.
  - intros H0. destruct (Rle_lt_or_eq_dec _ _ Hp) as [Hp0 | <-]; [| lra].
    pose proof (eased_increasing 0 p). rewrite eased_0 in *. lra.
  - intros H1. destruct (Rle_lt_or_eq_dec _ _ Hq) as [Hq1 | ->]; [| lra].
    pose proof (eased_increasing q 1). rewrite eased_1 in *. lra.
Qed.

Lemma eased_bounded_increasing_witness :
  0 <= eased (4 / 10) /\ eased (4 / 10) <= eased (9 / 10)
  /\ eased (9 / 10) <= 1.
Proof.
  destruct (eased_bounded_increasing (4 / 10) (9 / 10))
    as (H1 & H2 & H3 & _); [lra | lra | lra |].
  split; [exact H1 |]. split; [exact H2 | exact H3].
Defined.

(** ** No overshoot *)

Lemma lerp_between (a b t : R) :
  0 <= t <= 1 -> Rmin a b <= a + (b - a) * t <= Rmax a b.
Proof.
  intros Ht. unfold Rmin, Rmax. destruct (Rle_dec a b); nra.
Qed.

Lemma lerpVectors_between (v1 v2 : Vector3) (alpha : R) :
  0 <= alpha <= 1 -> between (lerpVectors v1 v2 alpha) v1 v2.
Proof.
  intros Ha. unfold between, lerpVectors. simpl.
  repeat split; now apply lerp_between.
Qed.

Lemma eased_componentProgress_range progress index totalSlots :
  (index < totalSlots)%nat ->
  0 <= eased (componentProgress progress index totalSlots) <= 1.
Proof.
  intros Hi.
  pose proof (componentProgress_range progress index totalSlots Hi) as [H0 H1].
  set (p := componentProgress progress index totalSlots) in *.
  destruct (Rle_lt_or_eq_dec _ _ H0) as [Hp0 | <-]; [| rewrite eased_0; lra].
  destruct (Rle_lt_or_eq_dec _ _ H1) as [Hp1 | ->]; [| rewrite eased_1; lra].
  pose proof (eased_interior p). lra.
Qed.

(** X4.  Whatever the progress, the live position and the live scale of a
    component lie, coordinate by coordinate, between the scattered and the
    original ones: the interpolation never overshoots. *)
Theorem updateAssemblyProgress_no_overshoot
    (this : AssemblyAnimation) (progress : R) (i : nat) (c : obj)
    (sp tp ss ts : Vector3) :
  NoDup (components this) ->
  components this !! i = Some c ->
  scatteredPositions this !! c = Some sp ->
  originalPositions this !! c = Some tp ->
  scatteredScales this !! c = Some ss ->
  originalScales this !! c = Some ts ->
  exists o,
    objects (updateAssemblyProgress progress this) !! c = Some o
    /\ between (position o) sp tp
    /\ between (scale o) ss ts.
Proof.
  intros Hnd Hi Hsp Htp Hss Hts.
  assert (i < List.length (components this))%nat as Hlt
    by (eapply lookup_lt_Some; eassumption).
  eexists. split.
  - rewrite updateAssemblyProgress_eq. simpl.
    apply (liveAfter_lookup _ _ _ _ _ _ i c); assumption.
  - unfold animatedTransform, getOr. rewrite Hsp, Htp, Hss, Hts.
    cbn [position scale]. rewrite Nat.add_0_l.
    split; apply lerpVectors_between;
      now apply eased_componentProgress_range.
Qed.

Lemma updateAssemblyProgress_no_overshoot_witness :
  exists o,
    objects (updateAssemblyProgress (6 / 10) fourComponents) !! 2%nat = Some o
    /\ between (position o) (mkVector3 (-15) 0 0) (mkVector3 0 1 0)
    /\ between (scale o) (mkVector3 (1 / 100) (1 / 100) (1 / 100))
         (mkVector3 1 1 1).
Proof.
  apply (updateAssemblyProgress_no_overshoot fourComponents (6 / 10)
           2%nat 2%nat);
    [compute_done | reflexivity ..].
Defined.

(** ** What updateAssemblyProgress does not write *)

Lemma liveAfter_written this progress n (l : list obj) index
    (m : gmap obj Object3D) (c : obj) :
  c ∈ l -> is_Some (liveAfter this progress n l index m !! c).
Proof.
  revert index m. induction l as [| a l IH]; intros index m Hc; simpl.
  - now apply elem_of_nil in Hc.
  - destruct (decide (c ∈ l)) as [Hin | Hout]; [now apply IH |].
    apply elem_of_cons in Hc as [-> | Hc]; [| contradiction].
    rewrite liveAfter_not_in by assumption.
    rewrite lookup_insert_eq. eauto.
Qed.

(** X5.  The call writes the live transforms of the components of the list
    and nothing else: not the camera, the list, the bounds, the animation
    state or the random stream, and not the live transform of any other
    object. *)
Theorem updateAssemblyProgress_writes_components_only
    (this : AssemblyAnimation) (progress : R) :
  let this' := updateAssemblyProgress progress this in
  camera this' = camera this
  /\ controlsTarget this' = controlsTarget this
  /\ components this' = components this
  /\ componentGroups this' = componentGroups this
  /\ modelBounds this' = modelBounds this
  /\ isAnimating this' = isAnimating this
  /\ startTime this' = startTime this
  /\ animationDuration this' = animationDuration this
  /\ randomRead this' = randomRead this
  /\ (forall k, k ∉ components this ->
        objects this' !! k = objects this !! k)
  /\ (forall c, c ∈ components this -> is_Some (objects this' !! c)).
Proof.
  intros this'. subst this'. rewrite updateAssemblyProgress_eq. simpl.
  repeat split; try reflexivity.
  - intros k Hk. now apply liveAfter_not_in.
  - intros c Hc. now apply liveAfter_written.
Qed.

(** ** scatterComponents: the missing record, the scattered transforms *)

(** X6.  [scatterComponents] throws when the first component of the list
    lacks one of its three original records, whatever the pattern. *)
Theorem scatterComponents_throws_without_original
    (pattern : string) (this : AssemblyAnimation) (c : obj)
    (rest : list obj) :
  components this = c :: rest ->
  originalPositions this !! c = None
  \/ originalRotations this !! c = None
  \/ originalScales this !! c = None ->
  scatterComponents pattern this = None.
Proof.
  intros Hl Hmiss. unfold scatterComponents, tryForEach. rewrite Hl. simpl.
  unfold scatterOne at 1. simpl.
  destruct Hmiss as [H | [H | H]]; rewrite H;
    destruct (originalPositions this !! c);
    try destruct (originalRotations this !! c); reflexivity.
Qed.

Lemma scatterComponents_throws_without_original_witness :
  scatterComponents "sphere" unrecorded = None.
Proof.
  apply (scatterComponents_throws_without_original "sphere" unrecorded
           0%nat []); [reflexivity | left; reflexivity].
Defined.

(** X7.  After [scatterComponents], every component after the first has
    the scattered scale (0.01, 0.01, 0.01) and a scattered rotation of
    three angles in [0, 2 PI) (for random values in [0, 1)), and its live
    transform is exactly its scattered transform. *)
Theorem scatterComponents_scattered_transforms
    (pattern : string) (this : AssemblyAnimation) (c0 c : obj)
    (rest : list obj) (p : Vector3) (r : Euler) (sc : Vector3) :
  components this = c0 :: rest ->
  NoDup (c0 :: rest) ->
  originalPositions this !! c0 = Some p ->
  originalRotations this !! c0 = Some r ->
  originalScales this !! c0 = Some sc ->
  (forall k, 0 <= randomStream this k < 1) ->
  c ∈ rest ->
  exists this' pos rot,
    scatterComponents pattern this = Some this'
    /\ scatteredPositions this' !! c = Some pos
    /\ scatteredRotations this' !! c = Some rot
    /\ scatteredScales this' !! c
       = Some (mkVector3 (1 / 100) (1 / 100) (1 / 100))
    /\ objects this' !! c
       = Some (mkObject3D pos rot (mkVector3 (1 / 100) (1 / 100) (1 / 100)))
    /\ 0 <= ex rot < 2 * PI
    /\ 0 <= ey rot < 2 * PI
    /\ 0 <= ez rot < 2 * PI.
Proof.
  intros Hl Hnd Hp Hr Hsc Hrnd Hc.
  destruct (scatterComponents_scatters pattern this c0 c rest p r sc)
    as (this' & pos & k & Hrun & _ & _ & _ & _ & Hsp & Hsr & Hss & Hobj);
    try assumption.
  eexists this', pos, _. split; [exact Hrun |].
  split; [exact Hsp |]. split; [exact Hsr |]. split; [exact Hss |].
  split; [exact Hobj |]. simpl.
  pose proof PI_RGT_0 as Hpi.
  pose proof (Hrnd k) as H0. pose proof (Hrnd (k + 1)%nat) as H1.
  pose proof (Hrnd (k + 2)%nat) as H2.
  repeat split; nra.
Qed.

Lemma scatterComponents_scattered_transforms_witness :
  exists this' pos rot,
    scatterComponents "explosion" fourComponents = Some this'
    /\ scatteredPositions this' !! 2%nat = Some pos
    /\ scatteredRotations this' !! 2%nat = Some rot
    /\ scatteredScales this' !! 2%nat
       = Some (mkVector3 (1 / 100) (1 / 100) (1 / 100))
    /\ objects this' !! 2%nat
       = Some (mkObject3D pos rot (mkVector3 (1 / 100) (1 / 100) (1 / 100)))
    /\ 0 <= ex rot < 2 * PI
    /\ 0 <= ey rot < 2 * PI
    /\ 0 <= ez rot < 2 * PI.
Proof.
  apply (scatterComponents_scattered_transforms "explosion" fourComponents
           0%nat 2%nat [1; 2; 3]%nat
           (mkVector3 0 0 0) Euler_zero (mkVector3 1 1 1));
    [reflexivity | compute_done | reflexivity | reflexivity | reflexivity
    | intros k; simpl; lra | compute_done].
Defined.

(** ** Where the patterns put a component *)

Lemma length_sq v : length v * length v = lengthSq v.
Proof.
  unfold length, lengthSq. apply sqrt_sqrt.
  pose proof (Rle_0_sqr (x v)). pose proof (Rle_0_sqr (y v)).
  pose proof (Rle_0_sqr (z v)). unfold Rsqr in *. lra.
Qed.

Lemma normalize_unit v : length v <> 0 -> lengthSq (normalize v) = 1.
Proof.
  intros Hl. unfold normalize. rewrite strict_eqb_neq by assumption.
  pose proof (length_sq v) as Hsq. unfold lengthSq in *.
  unfold multiplyScalar. simpl.
  set (l := length v) in *.
  replace (x v * (1 / l) * (x v * (1 / l)) + y v * (1 / l) * (y v * (1 / l))
           + z v * (1 / l) * (z v * (1 / l)))
    with ((x v * x v + y v * y v + z v * z v) / (l * l)) by (field; exact Hl).
  rewrite <- Hsq. field. exact Hl.
Qed.

Lemma normalize_zero v : length v = 0 -> normalize v = v.
Proof.
  intros Hl. unfold normalize. rewrite Hl, strict_eqb_refl.
  destruct v. unfold multiplyScalar. simpl. f_equal; field.
Qed.

(** X8.  The 'sphere' pattern puts a component exactly at the distance
    scatterRadius from the origin; the 'spiral' pattern at the horizontal
    distance scatterRadius * (0.3 + 0.7 t) and the height
    (t - 0.5) * scatterRadius * 1.5; neither reads a random value.  Any
    other pattern reads four values and puts the component at the distance
    scatterRadius * (0.5 + 0.5 r) in the drawn direction, or at the origin
    when the three drawn coordinates are all 0.5. *)
Theorem scatterPosition_distance
    (pattern : string) (scatterRadius t : R) (index : nat) (rnd : nat -> R) :
  let pos := fst (scatterPosition pattern scatterRadius t index rnd) in
  let reads := snd (scatterPosition pattern scatterRadius t index rnd) in
  (pattern = "sphere"%string ->
   lengthSq pos = scatterRadius * scatterRadius /\ reads = 0%nat)
  /\ (pattern = "spiral"%string ->
      x pos * x pos + z pos * z pos
      = (scatterRadius * (3 / 10 + t * (7 / 10)))
        * (scatterRadius * (3 / 10 + t * (7 / 10)))
      /\ y pos = (t - 5 / 10) * scatterRadius * (15 / 10)
      /\ reads = 0%nat)
  /\ (pattern <> "sphere"%string -> pattern <> "spiral"%string ->
      let dir := mkVector3 (rnd 0%nat - 5 / 10) (rnd 1%nat - 5 / 10)
                           (rnd 2%nat - 5 / 10) in
      let dist := scatterRadius * (5 / 10 + rnd 3%nat * (5 / 10)) in
      reads = 4%nat
      /\ (length dir <> 0 -> lengthSq pos = dist * dist)
      /\ (length dir = 0 -> pos = Vector3_zero)).
Proof.
  intros pos reads. subst pos reads. unfold scatterPosition.
  split; [| split].
  - intros ->. simpl. split; [| reflexivity].
    unfold lengthSq. simpl.
    set (phi := acos (2 * t - 1)).
    set (theta := PI * 2 * INR index * (618 / 1000)).
    pose proof (sin2_cos2 phi) as Hphi.
    pose proof (sin2_cos2 theta) as Htheta. unfold Rsqr in *.
    replace (scatterRadius * sin phi * cos theta
             * (scatterRadius * sin phi * cos theta)
             + scatterRadius * sin phi * sin theta
               * (scatterRadius * sin phi * sin theta)
             + scatterRadius * cos phi * (scatterRadius * cos phi))
      with (scatterRadius * scatterRadius
            * (sin phi * sin phi
               * (sin theta * sin theta + cos theta * cos theta)
               + cos phi * cos phi)) by ring.
    rewrite Htheta, Rmult_1_r, Hphi. ring.
  - intros ->. simpl. split; [| split; reflexivity].
    set (angle := t * PI * 4).
    pose proof (sin2_cos2 angle) as Hangle. unfold Rsqr in Hangle.
    set (radius := scatterRadius * (3 / 10 + t * (7 / 10))).
    replace (cos angle * radius * (cos angle * radius)
             + sin angle * radius * (sin angle * radius))
      with (radius * radius
            * (sin angle * sin angle + cos angle * cos angle)) by ring.
    rewrite Hangle. ring.
  - intros Hsphere Hspiral.
    apply String.eqb_neq in Hsphere, Hspiral.
    rewrite Hspiral, Hsphere. cbn [fst snd].
    set (dir := mkVector3 (rnd 0%nat - 5 / 10) (rnd 1%nat - 5 / 10)
                          (rnd 2%nat - 5 / 10)).
    set (dist := scatterRadius * (5 / 10 + rnd 3%nat * (5 / 10))).
    split; [reflexivity |]. split.
    + intros Hl. pose proof (normalize_unit dir Hl) as Hunit.
      set (d := normalize dir) in *.
      unfold lengthSq in *. cbn [x y z].
      replace (x d * dist * (x d * dist) + y d * dist * (y d * dist)
               + z d * dist * (z d * dist))
        with (dist * dist * (x d * x d + y d * y d + z d * z d)) by ring.
      rewrite Hunit. ring.
    + intros Hl. rewrite (normalize_zero dir Hl).
      pose proof (length_sq dir) as Hsq. rewrite Hl in Hsq.
      unfold lengthSq in Hsq.
      assert (x dir = 0 /\ y dir = 0 /\ z dir = 0) as (Hx & Hy & Hz).
      { pose proof (Rle_0_sqr (x dir)). pose proof (Rle_0_sqr (y dir)).
        pose proof (Rle_0_sqr (z dir)). unfold Rsqr in *.
        repeat split; nra. }
      rewrite Hx, Hy, Hz. unfold Vector3_zero. f_equal; ring.
Qed.

(** ** The random values scatterComponents reads *)

Lemma scatterOne_reads pattern scatterRadius (a : obj) (index : nat) this :
  index <> 0%nat ->
  exists this',
    scatterOne pattern scatterRadius a index this = Some this'
    /\ randomRead this' = (randomRead this + readsPerComponent pattern)%nat
    /\ randomStream this' = randomStream this.
Proof.
  intros Hi. unfold scatterOne, scatterPosition, readsPerComponent.
  destruct (Nat.eqb_spec index 0) as [| _]; [contradiction |].
  destruct (String.eqb pattern "spiral");
    [| destruct (String.eqb pattern "sphere")];
    (eexists; split; [reflexivity | split; reflexivity]).
Qed.

Lemma scatter_later_reads pattern scatterRadius (l : list obj)
    (index : nat) this :
  index <> 0%nat ->
  exists this',
    tryForEachFrom (scatterOne pattern scatterRadius) l index this
    = Some this'
    /\ randomRead this'
       = (randomRead this + List.length l * readsPerComponent pattern)%nat
    /\ randomStream this' = randomStream this.
Proof.
  revert index this. induction l as [| a l IH]; intros index this Hi; simpl.
  - exists this. repeat split. lia.
  - destruct (scatterOne_reads pattern scatterRadius a index this Hi)
      as (s1 & Hs1 & Hr1 & Hst1).
    rewrite Hs1. destruct (IH (S index) s1) as (s2 & Hs2 & Hr2 & Hst2);
      [lia |].
    exists s2. split; [exact Hs2 |]. rewrite Hr2, Hr1, Hst2, Hst1.
    split; [lia | reflexivity].
Qed.

Lemma scatterComponents_reads_of_run
    (pattern : string) (this this' : AssemblyAnimation) :
  scatterComponents pattern this = Some this' ->
  randomRead this'
  = (randomRead this
     + (List.length (components this) - 1) * readsPerComponent pattern)%nat
  /\ randomStream this' = randomStream this.
Proof.
  unfold scatterComponents, tryForEach.
  destruct (components this) as [| c rest] eqn:Hl; simpl.
  - intros [= <-]. split; [lia | reflexivity].
  - destruct (scatterOne pattern _ c 0 this) as [s1 |] eqn:Hs1;
      [| discriminate].
    assert (randomRead s1 = randomRead this
            /\ randomStream s1 = randomStream this) as [Hr1 Hst1].
    { unfold scatterOne in Hs1. simpl in Hs1.
      destruct (originalPositions this !! c); [| discriminate].
      destruct (originalRotations this !! c); [| discriminate].
      destruct (originalScales this !! c); [| discriminate].
      injection Hs1 as <-. split; reflexivity. }
    intros Hrun.
    match type of Hrun with
    | tryForEachFrom (scatterOne _ ?rad) _ _ _ = _ =>
        destruct (scatter_later_reads pattern rad rest 1%nat s1)
          as (s2 & Hs2 & Hr2 & Hst2); [lia |]
    end.
    rewrite Hs2 in Hrun. injection Hrun as <-.
    rewrite Hr2, Hst2, Hr1, Hst1. split; [lia | reflexivity].
Qed.

Lemma fourComponents_wellFormed : wellFormed fourComponents.
Proof.
  split; [compute_done |].
  intros c Hc. simpl in Hc.
  repeat (apply elem_of_cons in Hc as [-> | Hc];
          [repeat split; (simpl; lia) || (eexists; reflexivity) |]).
  now apply elem_of_nil in Hc.
Qed.

(** X9.  On a well-formed state [scatterComponents] returns, and it has
    read, for every component after the first, three random values under
    'spiral' and 'sphere' and seven under any other pattern, and none for
    the first; two runs in a row therefore read consecutive parts of the
    stream. *)
Theorem scatterComponents_random_reads
    (pattern : string) (this : AssemblyAnimation) :
  wellFormed this ->
  exists this',
    scatterComponents pattern this = Some this'
    /\ randomRead this'
       = (randomRead this
          + (List.length (components this) - 1)
            * readsPerComponent pattern)%nat
    /\ randomStream this' = randomStream this.
Proof.
  intros Hwf.
  destruct (scatterComponents_wellFormed pattern this Hwf)
    as (this' & Hrun & _).
  exists this'. split; [exact Hrun |].
  now apply scatterComponents_reads_of_run.
Qed.

Lemma scatterComponents_random_reads_witness :
  exists this',
    scatterComponents "explosion" fourComponents = Some this'
    /\ randomRead this' = 21%nat
    /\ randomStream this' = randomStream fourComponents.
Proof.
  exact (scatterComponents_random_reads "explosion" fourComponents
           fourComponents_wellFormed).
Defined.

(** ** The run of processModel *)

Lemma scatterComponents_run (pattern : string) this :
  wellFormed this ->
  exists this',
    scatterComponents pattern this = Some this'
    /\ components this' = components this
    /\ componentGroups this' = componentGroups this
    /\ modelBounds this' = modelBounds this
    /\ camera this' = camera this
    /\ originalPositions this' = originalPositions this
    /\ originalRotations this' = originalRotations this
    /\ originalScales this' = originalScales this
    /\ forall c0 rest,
         components this = c0 :: rest ->
         objects this' !! c0 = objects this !! c0
         /\ scatteredPositions this' !! c0 = originalPositions this !! c0
         /\ scatteredRotations this' !! c0 = originalRotations this !! c0
         /\ scatteredScales this' !! c0 = originalScales this !! c0.
Proof.
  intros [Hnd Hrec].
  destruct (components this) as [| c rest] eqn:Hl.
  - exists this. rewrite scatterComponents_nothing by assumption.
    rewrite Hl. repeat split; try reflexivity; discriminate.
  - apply NoDup_cons in Hnd as [Hc Hnd].
    destruct (Hrec c) as (Hlt & [p Hp] & [r Hr] & [sc Hsc]);
      [apply elem_of_cons; tauto |].
    destruct (scatterComponents_first pattern this c rest p r sc)
      as (s2 & Hs2 & Hk); try assumption.
    exists s2. split; [exact Hs2 |].
    destruct Hk as ((K1 & K2 & _) & (K3 & _ & K4 & _) & (K5 & K6 & K7)
                    & K8 & K9 & K10 & K11).
    simpl in *. rewrite K1, K2, K3, K4, K5, K6, K7, Hl.
    repeat split; try reflexivity;
      injection H as <- _;
      rewrite ?K8, ?K9, ?K10, ?K11, ?lookup_insert_eq;
      first [reflexivity | symmetry; assumption].
Qed.

Lemma processModel_run meshes page now this :
  wellFormed this ->
  exists this',
    processModel meshes page now this = Some this'
    /\ components this'
       = sortBySize (sizeOfComponent (afterLoop meshes this))
           (components (afterLoop meshes this))
    /\ componentGroups this' = componentGroups (afterLoop meshes this)
    /\ modelBounds this'
       = translate (boundsOf (candidates meshes))
           (multiplyScalar (getCenter (boundsOf (candidates meshes))) (-1))
    /\ originalPositions this' = originalPositions (afterLoop meshes this)
    /\ originalRotations this' = originalRotations (afterLoop meshes this)
    /\ originalScales this' = originalScales (afterLoop meshes this)
    /\ forall c0 rest,
         components this' = c0 :: rest ->
         objects this' !! c0 = objects (afterLoop meshes this) !! c0
         /\ scatteredPositions this' !! c0 = originalPositions this' !! c0
         /\ scatteredRotations this' !! c0 = originalRotations this' !! c0
         /\ scatteredScales this' !! c0 = originalScales this' !! c0.
Proof.
  intros Hwf. unfold processModel. rewrite processCandidates_kept.
  fold (afterLoop meshes this).
  assert (wellFormed (afterLoop meshes this)) as Hwf1.
  { unfold afterLoop. apply addComponents_wellFormed. exact Hwf. }
  set (s1 := afterLoop meshes this) in *.
  set (s2 := setBoundsAndComponents _ _ s1).
  assert (wellFormed s2) as Hwf2.
  { destruct Hwf1 as [Hnd Hrec]. split; simpl.
    - now rewrite sortBySize_perm.
    - intros c Hc. rewrite sortBySize_perm in Hc. now apply Hrec. }
  destruct (frameModel_fields page s2)
    as (F1 & F2 & F3 & _ & F5 & _ & _ & _ & Fwf).
  destruct (scatterComponents_run "spiral" (frameModel page s2) (Fwf Hwf2))
    as (s4 & Hs4 & K1 & K2 & K3 & _ & K5 & K6 & K7 & Kfirst).
  assert (originalPositions (frameModel page s2) = originalPositions s1
          /\ originalRotations (frameModel page s2) = originalRotations s1
          /\ originalScales (frameModel page s2) = originalScales s1)
    as (O1 & O2 & O3).
  { unfold frameModel. destruct (isEmpty (modelBounds s2)); simpl; tauto. }
  rewrite Hs4. exists (startAnimation now s4).
  split; [reflexivity |]. simpl.
  rewrite K1, K2, K3, K5, K6, K7, F1, F2, F3, O1, O2, O3.
  repeat split; try reflexivity;
    destruct (Kfirst c0 rest) as (L1 & L2 & L3 & L4);
    try (rewrite F1; exact H);
    rewrite ?L1, ?L2, ?L3, ?L4, ?F5, ?O1, ?O2, ?O3; reflexivity.
Qed.

(** ** The order of the components *)









(** ** The records of a group *)

Lemma addComponent_recordedFrom center node this :
  recordedFrom center this -> recordedFrom center (addComponent center node this).
Proof.
  intros [Hnd Hrec]. split; simpl.
  - rewrite fmap_app. apply NoDup_app. split; [assumption |]. split.
    + intros g Hg Hg'. apply list_elem_of_singleton in Hg'. subst g.
      apply list_elem_of_fmap in Hg as [[g n] [Heq Hin]]. simpl in Heq.
      subst g. destruct (Hrec _ _ Hin) as [Hlt _]. lia.
    + apply NoDup_singleton.
  - intros g n Hin. apply elem_of_app in Hin as [Hin | Hin].
    + destruct (Hrec _ _ Hin) as (Hlt & Hc & Hp & Hr & Hs).
      assert (nextObject this <> g) as Hne by lia.
      rewrite !lookup_insert_ne by assumption.
      repeat split; try assumption; [lia |].
      apply elem_of_app. now left.
    + apply list_elem_of_singleton in Hin. injection Hin as -> ->.
      rewrite !lookup_insert_eq.
      repeat split; [lia |]. apply elem_of_app. right.
      now apply list_elem_of_singleton.
Qed.

Lemma afterLoop_recordedFrom meshes this :
  componentGroups this = [] ->
  recordedFrom (getCenter (boundsOf (candidates meshes)))
    (afterLoop meshes this).
Proof.
  intros Hg. unfold afterLoop.
  set (center := getCenter (boundsOf (candidates meshes))).
  set (s0 := setBoundsAndComponents _ _ this).
  assert (recordedFrom center s0) as H0.
  { split; simpl; rewrite Hg.
    - apply NoDup_nil_2.
    - intros g n Hin. now apply elem_of_nil in Hin. }
  revert H0. generalize s0.
  induction (List.filter _ _) as [| node l IH]; intros s Hs; simpl.
  - exact Hs.
  - apply IH. now apply addComponent_recordedFrom.
Qed.

Lemma find_group (l : list (obj * SceneMesh)) (g : obj) (node : SceneMesh) :
  NoDup l.*1 -> (g, node) ∈ l ->
  List.find (fun gm => Nat.eqb (fst gm) g) l = Some (g, node).
Proof.
  induction l as [| [g' n'] l IH]; intros Hnd Hin.
  - now apply elem_of_nil in Hin.
  - simpl in *. apply NoDup_cons in Hnd as [Hg' Hnd].
    destruct (Nat.eqb_spec g' g) as [-> | Hne].
    + apply elem_of_cons in Hin as [[= <-] | Hin]; [reflexivity |].
      exfalso. apply Hg'. apply list_elem_of_fmap. now exists (g, node).
    + apply elem_of_cons in Hin as [[= <- <-] | Hin]; [contradiction |].
      now apply IH.
Qed.

(** X12.  After [processModel] on an object without groups, every group
    is a component of the list, its original position is the world position
    of its mesh minus the centre of the bounds of all candidates, its
    original rotation the world quaternion read as Euler angles, its
    original scale the world scale, and the size the sort compared is the
    diagonal of the group. *)
Theorem processModel_records_world_transform
    (meshes : list SceneMesh) (page : Page) (now : R)
    (this : AssemblyAnimation) :
  wellFormed this ->
  componentGroups this = [] ->
  exists this',
    processModel meshes page now this = Some this'
    /\ forall g node,
         (g, node) ∈ componentGroups this' ->
         g ∈ components this'
         /\ originalPositions this' !! g
            = Some (sub (worldPosition node)
                      (getCenter (boundsOf (candidates meshes))))
         /\ originalRotations this' !! g
            = Some (setFromQuaternion (worldQuaternion node))
         /\ originalScales this' !! g = Some (worldScale node)
         /\ sizeOfComponent this' g = groupDiagonal node.
Proof.
  intros Hwf Hg.
  destruct (processModel_run meshes page now this Hwf)
    as (r & Hr & Hl & Hgr & _ & Hp & Hrot & Hs & _).
  destruct (afterLoop_recordedFrom meshes this Hg) as [Hnd Hrec].
  exists r. split; [exact Hr |].
  intros g node Hin. rewrite Hgr in Hin.
  destruct (Hrec g node Hin) as (_ & Hc & Hpos & Hro & Hsc).
  rewrite Hl, Hp, Hrot, Hs, sortBySize_perm.
  repeat split; try assumption.
  unfold sizeOfComponent. rewrite Hgr.
  now rewrite (find_group _ g node Hnd Hin).
Qed.

Lemma processModel_records_world_transform_witness :
  exists this',
    processModel [cubeAt 0] page800 0 fresh = Some this'
    /\ forall g node,
         (g, node) ∈ componentGroups this' ->
         g ∈ components this'
         /\ originalPositions this' !! g
            = Some (sub (worldPosition node)
                      (getCenter (boundsOf (candidates [cubeAt 0]))))
         /\ originalRotations this' !! g
            = Some (setFromQuaternion (worldQuaternion node))
         /\ originalScales this' !! g = Some (worldScale node)
         /\ sizeOfComponent this' g = groupDiagonal node.
Proof.
  apply (processModel_records_world_transform [cubeAt 0] page800 0 fresh);
    [| reflexivity].
  split.
  - apply NoDup_nil_2.
  - intros c Hc. exfalso. revert Hc. apply not_elem_of_nil.
Defined.

(** ** The bounds after processModel *)

Lemma getCenter_recentred b :
  getCenter (translate b (multiplyScalar (getCenter b) (-1))) = Vector3_zero.
Proof.
  destruct b as [| mn mx]; [reflexivity |].
  change (translate (Box3_of mn mx) ?o)
    with (Box3_of (add mn o) (add mx o)).
  unfold getCenter at 1.
  change (Box3_of (add mn ?o) (add mx ?o))
    with (translate (Box3_of mn mx) o).
  rewrite isEmpty_translate.
  unfold getCenter. destruct (isEmpty (Box3_of mn mx)); [reflexivity |].
  unfold Vector3_zero, multiplyScalar, add. cbn [x y z].
  f_equal; field.
Qed.

(** X13.  [processModel] leaves the model bounds centred on the origin,
    with the size of the bounds of all candidates. *)
Theorem processModel_recentres_bounds
    (meshes : list SceneMesh) (page : Page) (now : R)
    (this : AssemblyAnimation) :
  wellFormed this ->
  exists this',
    processModel meshes page now this = Some this'
    /\ getCenter (modelBounds this') = Vector3_zero
    /\ getSize (modelBounds this') = getSize (boundsOf (candidates meshes))
    /\ isEmpty (modelBounds this') = isEmpty (boundsOf (candidates meshes)).
Proof.
  intros Hwf.
  destruct (processModel_run meshes page now this Hwf)
    as (r & Hr & _ & _ & Hb & _).
  exists r. split; [exact Hr |]. rewrite Hb.
  split; [apply getCenter_recentred |].
  split; [apply getSize_translate | apply isEmpty_translate].
Qed.

Lemma processModel_recentres_bounds_witness :
  exists this',
    processModel twoSmallCubes page800 0 fresh = Some this'
    /\ getCenter (modelBounds this') = Vector3_zero
    /\ getSize (modelBounds this')
       = getSize (boundsOf (candidates twoSmallCubes))
    /\ isEmpty (modelBounds this')
       = isEmpty (boundsOf (candidates twoSmallCubes)).
Proof.
  apply (processModel_recentres_bounds twoSmallCubes page800 0 fresh).
  split.
  - apply NoDup_nil_2.
  - intros c Hc. exfalso. revert Hc. apply not_elem_of_nil.
Defined.

(** ** The largest component *)

Lemma addComponent_atRest center node this :
  atRest this -> atRest (addComponent center node this).
Proof.
  intros Hrest c Hc. simpl in *. apply elem_of_app in Hc as [Hc | Hc].
  - destruct (Hrest c Hc) as (Hlt & p & r & sc & Hp & Hr & Hs & Ho).
    assert (nextObject this <> c) as Hne by lia.
    rewrite !lookup_insert_ne by assumption.
    split; [lia |]. now exists p, r, sc.
  - apply list_elem_of_singleton in Hc. subst c.
    rewrite !lookup_insert_eq. split; [lia |]. eauto 10.
Qed.

Lemma afterLoop_atRest meshes this :
  components this = [] -> atRest (afterLoop meshes this).
Proof.
  intros Hl. unfold afterLoop.
  set (s0 := setBoundsAndComponents _ _ this).
  assert (atRest s0) as H0.
  { intros c Hc. simpl in Hc. rewrite Hl in Hc. now apply elem_of_nil in Hc. }
  revert H0. generalize s0.
  induction (List.filter _ _) as [| node l IH]; intros s Hs; simpl.
  - exact Hs.
  - apply IH. now apply addComponent_atRest.
Qed.

Lemma lerpVectors_same v alpha : lerpVectors v v alpha = v.
Proof. destruct v. unfold lerpVectors. simpl. f_equal; ring. Qed.

(** X14.  After [processModel] on an object without components, the first
    component of the list (the largest) has its scattered records equal to
    its original records and its live transform equal to its original
    transform, and [updateAssemblyProgress] leaves its position and its
    scale there whatever the progress. *)
Theorem processModel_largest_stays
    (meshes : list SceneMesh) (page : Page) (now : R)
    (this : AssemblyAnimation) :
  components this = [] ->
  exists this',
    processModel meshes page now this = Some this'
    /\ forall c0 rest,
         components this' = c0 :: rest ->
         exists p r sc,
           originalPositions this' !! c0 = Some p
           /\ originalRotations this' !! c0 = Some r
           /\ originalScales this' !! c0 = Some sc
           /\ scatteredPositions this' !! c0 = Some p
           /\ scatteredRotations this' !! c0 = Some r
           /\ scatteredScales this' !! c0 = Some sc
           /\ objects this' !! c0 = Some (mkObject3D p r sc)
           /\ forall progress,
                exists o,
                  objects (updateAssemblyProgress progress this') !! c0
                  = Some o
                  /\ position o = p
                  /\ scale o = sc.
Proof.
  intros Hl.
  assert (wellFormed this) as Hwf.
  { split; rewrite Hl; [apply NoDup_nil_2 |].
    intros c Hc. now apply elem_of_nil in Hc. }
  destruct (processModel_run meshes page now this Hwf)
    as (r & Hr & Hlr & _ & _ & Hp & Hrot & Hs & Hfirst).
  destruct (processModel_returns meshes page now this Hwf)
    as (r' & Hr' & [Hnd _] & _).
  rewrite Hr in Hr'. injection Hr' as <-.
  exists r. split; [exact Hr |].
  intros c0 rest Hc0.
  destruct (Hfirst c0 rest Hc0) as (Ho & Hsp & Hsr & Hss).
  destruct (afterLoop_atRest meshes this Hl c0)
    as (_ & p & rt & sc & Hp0 & Hr0 & Hs0 & Ho0).
  { rewrite <- (sortBySize_perm (sizeOfComponent (afterLoop meshes this))).
    rewrite <- Hlr, Hc0. apply elem_of_cons. now left. }
  exists p, rt, sc.
  rewrite Hsp, Hsr, Hss, Ho, Hp, Hrot, Hs.
  repeat split; try assumption.
  intros progress. eexists. split.
  - rewrite updateAssemblyProgress_eq. simpl.
    apply (liveAfter_lookup _ _ _ _ _ _ 0%nat c0); [exact Hnd |].
    now rewrite Hc0.
  - unfold animatedTransform, getOr.
    rewrite Hsp, Hss, Hp, Hs, Hp0, Hs0. cbn [position scale].
    now rewrite !lerpVectors_same.
Qed.

Lemma processModel_largest_stays_witness :
  exists this',
    processModel [cubeAt 0] page800 0 fresh = Some this'
    /\ forall c0 rest,
         components this' = c0 :: rest ->
         exists p r sc,
           originalPositions this' !! c0 = Some p
           /\ originalRotations this' !! c0 = Some r
           /\ originalScales this' !! c0 = Some sc
           /\ scatteredPositions this' !! c0 = Some p
           /\ scatteredRotations this' !! c0 = Some r
           /\ scatteredScales this' !! c0 = Some sc
           /\ objects this' !! c0 = Some (mkObject3D p r sc)
           /\ forall progress,
                exists o,
                  objects (updateAssemblyProgress progress this') !! c0
                  = Some o
                  /\ position o = p
                  /\ scale o = sc.
Proof.
  apply (processModel_largest_stays [cubeAt 0] page800 0 fresh).
  reflexivity.
Defined.

(** ** The camera after processModel *)

Lemma processModel_camera meshes page now this :
  wellFormed this ->
  exists this',
    processModel meshes page now this = Some this'
    /\ camera this'
       = camera (frameModel page
                   (setBoundsAndComponents
                      (translate (boundsOf (candidates meshes))
                         (multiplyScalar
                            (getCenter (boundsOf (candidates meshes))) (-1)))
                      (components this) this))
    /\ controlsTarget this'
       = controlsTarget
           (frameModel page
              (setBoundsAndComponents
                 (translate (boundsOf (candidates meshes))
                    (multiplyScalar
                       (getCenter (boundsOf (candidates meshes))) (-1)))
                 (components this) this)).
Proof.
  intros Hwf. unfold processModel. rewrite processCandidates_kept.
  fold (afterLoop meshes this).
  assert (wellFormed (afterLoop meshes this)) as Hwf1.
  { unfold afterLoop. apply addComponents_wellFormed. exact Hwf. }
  pose proof (addComponents_effect
                (getCenter (boundsOf (candidates meshes)))
                (List.filter
                   (kept (minComponentSizeOf (boundsOf (candidates meshes))))
                   (candidates meshes))
                (setBoundsAndComponents (boundsOf (candidates meshes))
                   (components this) this)) as Heff.
  cbv zeta in Heff. fold (afterLoop meshes this) in Heff.
  destruct Heff as (_ & _ & Hcam & Htgt & _).
  set (s1 := afterLoop meshes this) in *.
  set (s2 := setBoundsAndComponents _ _ s1).
  assert (wellFormed s2) as Hwf2.
  { destruct Hwf1 as [Hnd Hrec]. split; simpl.
    - now rewrite sortBySize_perm.
    - intros c Hc. rewrite sortBySize_perm in Hc. now apply Hrec. }
  destruct (frameModel_fields page s2) as (_ & _ & _ & _ & _ & _ & _ & _ & Fwf).
  destruct (scatterComponents_wellFormed "spiral" (frameModel page s2)
              (Fwf Hwf2)) as (s4 & Hs4 & _ & _ & _ & K3 & K4 & _).
  rewrite Hs4. exists (startAnimation now s4).
  split; [reflexivity |]. simpl. rewrite K3, K4.
  unfold frameModel. subst s2. simpl in *.
  destruct (isEmpty _); simpl; rewrite ?Hcam, ?Htgt; split; reflexivity.
Qed.

(** X15.  When the bounds of the candidates are not empty, [processModel]
    leaves the camera looking at the origin, which is also the target of
    the controls, from the point (-2m, 2m, 2m), where m is the largest
    dimension of the bounds, with the frustum height 0.75 m and the zoom
    1. *)
Theorem processModel_frames_the_origin
    (meshes : list SceneMesh) (page : Page) (now : R)
    (this : AssemblyAnimation) :
  wellFormed this ->
  isEmpty (boundsOf (candidates meshes)) = false ->
  let m := maxDimensionOf (boundsOf (candidates meshes)) in
  exists this',
    processModel meshes page now this = Some this'
    /\ cameraLookAt (camera this') = Vector3_zero
    /\ controlsTarget this' = Vector3_zero
    /\ cameraPosition (camera this')
       = mkVector3 (0 - m * 2) (0 + m * 2) (0 + m * 2)
    /\ top (camera this') - bottom (camera this') = m * (75 / 100)
    /\ zoom (camera this') = 1.
Proof.
  intros Hwf Hne m.
  destruct (processModel_camera meshes page now this Hwf)
    as (r & Hr & Hcam & Htgt).
  exists r. split; [exact Hr |].
  set (s2 := setBoundsAndComponents _ _ this) in *.
  assert (isEmpty (modelBounds s2) = false) as Hne2.
  { subst s2. cbn [modelBounds setBoundsAndComponents].
    now rewrite isEmpty_translate. }
  assert (getCenter (modelBounds s2) = Vector3_zero) as Hc.
  { subst s2. cbn [modelBounds setBoundsAndComponents].
    apply getCenter_recentred. }
  assert (maxDimensionOf (modelBounds s2) = m) as Hm.
  { subst s2. cbn [modelBounds setBoundsAndComponents].
    unfold maxDimensionOf. now rewrite getSize_translate. }
  rewrite Htgt, Hcam, frameModel_camera by assumption.
  unfold frameModel. rewrite Hne2. cbv zeta.
  cbn [cameraLookAt cameraPosition top bottom zoom controlsTarget setCamera].
  rewrite Hc, Hm. cbn [x y z Vector3_zero].
  repeat split; try reflexivity. unfold Rdiv. lra.
Qed.

Lemma cubeAt_bounds_not_empty :
  isEmpty (boundsOf (candidates [cubeAt 0])) = false.
Proof.
  cbv [boundsOf candidates cubeAt foldl take MAX_COMPONENTS union isEmpty
       x y z worldBoxMin worldBoxMax orb].
  now rewrite !ltb_false by lra.
Qed.

Lemma processModel_frames_the_origin_witness :
  exists this',
    processModel [cubeAt 0] page800 0 fresh = Some this'
    /\ cameraLookAt (camera this') = Vector3_zero
    /\ controlsTarget this' = Vector3_zero.
Proof.
  destruct (processModel_frames_the_origin [cubeAt 0] page800 0 fresh)
    as (this' & Hrun & Hlook & Htarget & _).
  - split.
    + apply NoDup_nil_2.
    + intros c Hc. exfalso. revert Hc. apply not_elem_of_nil.
  - exact cubeAt_bounds_not_empty.
  - exists this'. split; [exact Hrun |]. split; assumption.
Defined.

(** ** onWindowResize *)

Lemma onWindowResize_camera (width height : R) (windowSize : R * R) this :
  onWindowResize (mkPage (Some (width, height)) windowSize) this
  = setCamera
      (let frustumSize :=
         (top (camera this) - bottom (camera this)) / zoom (camera this) in
       mkCamera (- frustumSize * (width / height) / 2)
                (frustumSize * (width / height) / 2)
                (frustumSize / 2) (- frustumSize / 2)
                (zoom (camera this))
                (cameraPosition (camera this))
                (cameraLookAt (camera this)))
      (controlsTarget this) this.
Proof. reflexivity. Qed.

Lemma setCamera_same this :
  setCamera (camera this) (controlsTarget this) this = this.
Proof. now destruct this. Qed.

(** X16.  Without a container [onWindowResize] changes nothing.  With one,
    it keeps the zoom, the position and the direction of the camera and
    makes the frustum symmetric, with the width to the height as the
    container's, and the height the old height divided by the zoom; so at
    zoom 1 the height is kept and a second call for the same container
    changes nothing more. *)
Theorem onWindowResize_frustum
    (page : Page) (this : AssemblyAnimation) :
  (container page = None -> onWindowResize page this = this)
  /\ (forall width height,
        container page = Some (width, height) ->
        let resized := camera (onWindowResize page this) in
        top resized = - bottom resized
        /\ left resized = - right resized
        /\ right resized = top resized * (width / height)
        /\ top resized - bottom resized
           = (top (camera this) - bottom (camera this)) / zoom (camera this)
        /\ zoom resized = zoom (camera this)
        /\ cameraPosition resized = cameraPosition (camera this)
        /\ cameraLookAt resized = cameraLookAt (camera this)
        /\ (zoom (camera this) = 1 ->
            top resized - bottom resized
            = top (camera this) - bottom (camera this)
            /\ onWindowResize page (onWindowResize page this)
               = onWindowResize page this)).
Proof.
  split.
  - intros Hnone. unfold onWindowResize. now rewrite Hnone.
  - intros width height Hsome resized. subst resized.
    destruct page as [cont win]. simpl in Hsome. subst cont.
    rewrite !onWindowResize_camera. cbv zeta.
    cbn [camera setCamera top bottom left right zoom cameraPosition
         cameraLookAt controlsTarget].
    set (f := (top (camera this) - bottom (camera this)) / zoom (camera this)).
    do 7 (split; [first [reflexivity | unfold Rdiv; lra] |]).
    intros Hz. split.
    + subst f. rewrite Hz. unfold Rdiv. lra.
    + assert ((f / 2 - - f / 2) / zoom (camera this) = f) as ->.
      { rewrite Hz. unfold Rdiv. lra. }
      reflexivity.
Qed.

(** X17.  A resize after [frameModel] gives the camera [frameModel] gives
    for the new container: for bounds that are not empty,
    [onWindowResize] for a page after [frameModel] for any page is
    [frameModel] for the second page. *)
Theorem onWindowResize_after_frameModel
    (page page' : Page) (this : AssemblyAnimation) (width height : R) :
  isEmpty (modelBounds this) = false ->
  container page' = Some (width, height) ->
  onWindowResize page' (frameModel page this) = frameModel page' this.
Proof.
  intros Hne Hsome.
  destruct page' as [cont win]. simpl in Hsome. subst cont.
  rewrite onWindowResize_camera.
  rewrite frameModel_camera by assumption.
  unfold frameModel. rewrite Hne. cbv zeta.
  cbn [camera setCamera top bottom left right zoom cameraPosition
       cameraLookAt controlsTarget aspectOf container].
  fold (maxDimensionOf (modelBounds this)).
  set (f := maxDimensionOf (modelBounds this) * (15 / 10) / 2).
  assert ((f / 2 - - f / 2) / 1 = f) as -> by (unfold Rdiv; lra).
  reflexivity.
Qed.

Lemma onWindowResize_after_frameModel_witness :
  onWindowResize (mkPage (Some (1024, 768)) (1024, 768))
    (frameModel page800 fourComponents)
  = frameModel (mkPage (Some (1024, 768)) (1024, 768)) fourComponents.
Proof.
  apply (onWindowResize_after_frameModel page800
           (mkPage (Some (1024, 768)) (1024, 768)) fourComponents 1024 768);
    [exact fourComponents_bounds_not_empty | reflexivity].
Defined.

(** ** reset *)

Lemma reset_loop this (l : list obj) index m :
  forEachFrom
    (fun component (_ : nat) this =>
       withObjects
         (alter (resetTransform this component) component (objects this))
         this)
    l index (withObjects m this)
  = withObjects (resetAfter this l m) this.
Proof.
  revert index m. induction l as [| c l IH]; intros index m; simpl.
  - reflexivity.
  - rewrite <- (IH (S index)). reflexivity.
Qed.

Lemma reset_eq this :
  reset this = withObjects (resetAfter this (components this) (objects this))
                 this.
Proof.
  unfold reset, forEach.
  rewrite <- (reset_loop this (components this) 0), withObjects_objects.
  reflexivity.
Qed.

Lemma resetTransform_idempotent this c o :
  resetTransform this c (resetTransform this c o) = resetTransform this c o.
Proof.
  unfold resetTransform.
  destruct (originalPositions this !! c), (originalRotations this !! c),
    (originalScales this !! c); reflexivity.
Qed.

Lemma resetAfter_not_in this (l : list obj) (m : gmap obj Object3D) (c : obj) :
  c ∉ l -> resetAfter this l m !! c = m !! c.
Proof.
  revert m. induction l as [| a l IH]; intros m Hc; simpl.
  - reflexivity.
  - apply not_elem_of_cons in Hc as [Hne Hc].
    rewrite IH by assumption. now rewrite lookup_alter_ne.
Qed.

Lemma resetAfter_in this (l : list obj) (m : gmap obj Object3D) (c : obj) :
  c ∈ l -> resetAfter this l m !! c = resetTransform this c <$> m !! c.
Proof.
  revert m. induction l as [| a l IH]; intros m Hc; simpl.
  - now apply elem_of_nil in Hc.
  - destruct (decide (a = c)) as [-> | Hne].
    + destruct (decide (c ∈ l)) as [Hin | Hout].
      * rewrite IH by assumption. rewrite lookup_alter_eq.
        destruct (m !! c); simpl; [| reflexivity].
        now rewrite resetTransform_idempotent.
      * rewrite resetAfter_not_in by assumption. apply lookup_alter_eq.
    + apply elem_of_cons in Hc as [-> | Hc]; [contradiction |].
      rewrite IH by assumption. now rewrite lookup_alter_ne.
Qed.

Lemma resetAfter_withObjects this m0 l m :
  resetAfter (withObjects m0 this) l m = resetAfter this l m.
Proof.
  revert m. induction l as [| c l IH]; intros m; simpl.
  - reflexivity.
  - now rewrite IH.
Qed.

(** X18.  [reset] puts every component that has its three original records
    exactly at its original position, rotation and scale, from whatever
    live transform it had; in particular after any
    [updateAssemblyProgress]. *)
Theorem reset_restores_original
    (this : AssemblyAnimation) (c : obj)
    (p : Vector3) (r : Euler) (sc : Vector3) :
  c ∈ components this ->
  originalPositions this !! c = Some p ->
  originalRotations this !! c = Some r ->
  originalScales this !! c = Some sc ->
  (forall o, objects this !! c = Some o ->
     objects (reset this) !! c = Some (mkObject3D p r sc))
  /\ (forall progress,
        objects (reset (updateAssemblyProgress progress this)) !! c
        = Some (mkObject3D p r sc)).
Proof.
  intros Hc Hp Hr Hs.
  assert (forall o, resetTransform this c o = mkObject3D p r sc) as Hreset.
  { intros o. unfold resetTransform. now rewrite Hp, Hr, Hs. }
  split.
  - intros o Ho. rewrite reset_eq. simpl.
    rewrite resetAfter_in by assumption. rewrite Ho. simpl.
    now rewrite Hreset.
  - intros progress. rewrite updateAssemblyProgress_eq, reset_eq. simpl.
    rewrite resetAfter_withObjects, resetAfter_in by assumption.
    destruct (liveAfter_written this progress
                (List.length (components this)) (components this) 0
                (objects this) c Hc) as [o Ho].
    rewrite Ho. simpl. now rewrite Hreset.
Qed.

Lemma reset_restores_original_witness :
  objects (reset (updateAssemblyProgress (6 / 10) fourComponents)) !! 1%nat
  = Some (mkObject3D (mkVector3 1 0 0) Euler_zero (mkVector3 1 1 1)).
Proof.
  apply (reset_restores_original fourComponents 1%nat
           (mkVector3 1 0 0) Euler_zero (mkVector3 1 1 1));
    [compute_done | reflexivity ..].
Defined.

(** X19.  [reset] is idempotent and writes live transforms only: the
    animation flag, the camera, the list and the stored records are kept,
    and so is the live transform of an object that is not in the list or
    has none of the three records. *)
Theorem reset_idempotent_and_frame (this : AssemblyAnimation) :
  reset (reset this) = reset this
  /\ isAnimating (reset this) = isAnimating this
  /\ camera (reset this) = camera this
  /\ components (reset this) = components this
  /\ originalPositions (reset this) = originalPositions this
  /\ originalRotations (reset this) = originalRotations this
  /\ originalScales (reset this) = originalScales this
  /\ scatteredPositions (reset this) = scatteredPositions this
  /\ scatteredRotations (reset this) = scatteredRotations this
  /\ scatteredScales (reset this) = scatteredScales this
  /\ (forall c, c ∉ components this ->
        objects (reset this) !! c = objects this !! c)
  /\ (forall c,
        originalPositions this !! c = None ->
        originalRotations this !! c = None ->
        originalScales this !! c = None ->
        objects (reset this) !! c = objects this !! c).
Proof.
  rewrite !reset_eq. simpl. rewrite resetAfter_withObjects.
  split.
  { unfold withObjects. simpl. f_equal. apply map_eq. intros c.
    destruct (decide (c ∈ components this)) as [Hin | Hout].
    - rewrite !resetAfter_in by assumption.
      destruct (objects this !! c); simpl; [| reflexivity].
      now rewrite resetTransform_idempotent.
    - now rewrite !resetAfter_not_in by assumption. }
  do 9 (split; [reflexivity |]).
  split.
  - intros c Hc. now apply resetAfter_not_in.
  - intros c Hp Hr Hs.
    destruct (decide (c ∈ components this)) as [Hin | Hout].
    + rewrite resetAfter_in by assumption.
      destruct (objects this !! c) as [o |]; simpl; [| reflexivity].
      unfold resetTransform. now rewrite Hp, Hr, Hs.
    + now apply resetAfter_not_in.
Qed.

(** ** animate *)

Lemma easeOutCubic_0 : easeOutCubic 0 = 0.
Proof. unfold easeOutCubic. simpl. ring. Qed.

Lemma easeOutCubic_1 : easeOutCubic 1 = 1.
Proof. unfold easeOutCubic. simpl. ring. Qed.

Lemma easeOutCubic_monotone (p q : R) :
  0 <= p -> p <= q -> q <= 1 ->
  0 <= easeOutCubic p /\ easeOutCubic p <= easeOutCubic q
  /\ easeOutCubic q <= 1.
Proof.
  intros Hp Hpq Hq. unfold easeOutCubic. simpl.
  set (a := 1 - p). set (b := 1 - q).
  assert (0 <= b) by (subst b; lra).
  assert (b <= a) by (subst a b; lra).
  assert (a <= 1) by (subst a; lra).
  assert (0 <= a * a) by nra.
  assert (0 <= b * b) by nra.
  assert (b * b <= a * a) by nra.
  assert (a * a <= 1) by nra.
  repeat split; nra.
Qed.

Lemma animate_objects now controls this :
  isAnimating this = true ->
  objects (snd (animate now (controls, this)))
  = objects (updateAssemblyProgress (frameProgress now this) this).
Proof.
  intros Ha. unfold animate, frameProgress. rewrite Ha.
  destruct (geb _ 1); reflexivity.
Qed.

Lemma animate_finishing now controls this :
  isAnimating this = true ->
  0 < animationDuration this ->
  animationDuration this <= now - startTime this ->
  animate now (controls, this)
  = (mkControls true true,
     setAnimating false (updateAssemblyProgress 1 this)).
Proof.
  intros Ha Hd He. unfold animate. rewrite Ha.
  assert (1 <= (now - startTime this) / animationDuration this) as Hq.
  { apply (Rmult_le_reg_r (animationDuration this)); [assumption |].
    unfold Rdiv. rewrite Rmult_assoc, Rinv_l; lra. }
  rewrite Rmin_right by assumption.
  rewrite geb_true by lra. now rewrite easeOutCubic_1.
Qed.

Lemma animate_running now controls this :
  isAnimating this = true ->
  0 < animationDuration this ->
  now - startTime this < animationDuration this ->
  animate now (controls, this)
  = (controls,
     updateAssemblyProgress
       (easeOutCubic ((now - startTime this) / animationDuration this))
       this).
Proof.
  intros Ha Hd He. unfold animate. rewrite Ha.
  assert ((now - startTime this) / animationDuration this < 1) as Hq.
  { apply (Rmult_lt_reg_r (animationDuration this)); [assumption |].
    unfold Rdiv. rewrite Rmult_assoc, Rinv_l; lra. }
  rewrite Rmin_left by lra. now rewrite geb_false by lra.
Qed.

(** X20.  After [startAnimation] at the time [now0], a frame less than
    4000 ms later keeps the animation running and the controls as they
    are, and sets the components for the eased progress
    1 - (1 - t/4000)^3; a frame 4000 ms later or more sets them for the
    progress 1, clears [isAnimating] and switches the automatic and the
    manual rotation on. *)
Theorem animate_after_startAnimation
    (controls : Controls) (this : AssemblyAnimation) (now0 t : R) :
  let started := startAnimation now0 this in
  (t < 4000 ->
   animate (now0 + t) (controls, started)
   = (controls, updateAssemblyProgress (easeOutCubic (t / 4000)) started)
   /\ isAnimating (snd (animate (now0 + t) (controls, started))) = true)
  /\ (4000 <= t ->
      animate (now0 + t) (controls, started)
      = (mkControls true true,
         setAnimating false (updateAssemblyProgress 1 started))
      /\ isAnimating (snd (animate (now0 + t) (controls, started))) = false).
Proof.
  intros started.
  assert (now0 + t - startTime started = t) as Helapsed
    by (subst started; simpl; ring).
  split; intros Ht.
  - rewrite animate_running; subst started; simpl;
      rewrite ?Helapsed; try lra; try reflexivity.
    simpl in Helapsed. rewrite Helapsed. split; [reflexivity |].
    now rewrite updateAssemblyProgress_eq.
  - rewrite animate_finishing; subst started; simpl;
      rewrite ?Helapsed; try lra; try reflexivity.
    split; reflexivity.
Qed.



(** X22.  While the animation runs, a later frame never moves a component
    back: the eased progress of a frame stays in [0, 1] and does not
    decrease with the time, and neither does the local progress of any
    component. *)
Theorem animate_never_goes_back
    (controls : Controls) (this : AssemblyAnimation) (now1 now2 : R)
    (index : nat) :
  isAnimating this = true ->
  0 < animationDuration this ->
  startTime this <= now1 ->
  now1 <= now2 ->
  (index < List.length (components this))%nat ->
  objects (snd (animate now1 (controls, this)))
  = objects (updateAssemblyProgress (frameProgress now1 this) this)
  /\ 0 <= frameProgress now1 this
  /\ frameProgress now1 this <= frameProgress now2 this
  /\ frameProgress now2 this <= 1
  /\ componentProgress (frameProgress now1 this) index
       (List.length (components this))
     <= componentProgress (frameProgress now2 this) index
          (List.length (components this)).
Proof.
  intros Ha Hd Hs H12 Hi.
  split; [now apply animate_objects |].
  pose proof (Rinv_0_lt_compat _ Hd) as Hk.
  assert (0 <= Rmin ((now1 - startTime this) / animationDuration this) 1)
    as H0.
  { apply Rmin_glb; [| lra]. unfold Rdiv. nra. }
  assert (Rmin ((now1 - startTime this) / animationDuration this) 1
          <= Rmin ((now2 - startTime this) / animationDuration this) 1)
    as Hle.
  { apply Rle_min_compat_r. unfold Rdiv. nra. }
  pose proof (Rmin_r ((now2 - startTime this) / animationDuration this) 1)
    as H1.
  destruct (easeOutCubic_monotone _ _ H0 Hle H1) as (E0 & E1 & E2).
  unfold frameProgress.
  split; [exact E0 |]. split; [exact E1 |]. split; [exact E2 |].
  now apply componentProgress_nondecreasing.
Qed.

Lemma animate_never_goes_back_witness :
  frameProgress 2000 (startAnimation 1000 fourComponents)
  <= frameProgress 3000 (startAnimation 1000 fourComponents)
  /\ componentProgress
       (frameProgress 2000 (startAnimation 1000 fourComponents)) 2 4
     <= componentProgress
          (frameProgress 3000 (startAnimation 1000 fourComponents)) 2 4.
Proof.
  destruct (animate_never_goes_back (mkControls false false)
              (startAnimation 1000 fourComponents) 2000 3000 2)
    as (_ & _ & H1 & _ & H2);
    [reflexivity | simpl; lra | simpl; lra | lra | simpl; lia |].
  split; [exact H1 | exact H2].
Defined.

(** ** simplifyGeometry *)

Lemma sampledUpTo_next positions step j acc :
  (1 <= step)%nat ->
  sampledUpTo positions step j acc ->
  sampledUpTo positions step (S j)
    (mkSampling
       (newPositions acc
        ++ [default Vector3_zero (positions !! (j * step)%nat)])
       (<[(j * step)%nat := newIndex acc]> (indexMap acc))
       (S (newIndex acc))).
Proof.
  intros Hstep (Hn & Hlen & Hpos & Hmap). unfold sampledUpTo. simpl.
  split; [now rewrite Hn |]. split; [rewrite length_app; simpl; lia |].
  split.
  - intros k Hk. destruct (decide (k = j)) as [-> | Hne].
    + rewrite lookup_app_r by lia. rewrite Hlen, Nat.sub_diag. reflexivity.
    + rewrite lookup_app_l by lia. apply Hpos. lia.
  - intros m k. destruct (decide (m = j * step)%nat) as [-> | Hne].
    + rewrite lookup_insert_eq, Hn. split.
      * intros [= <-]. split; [lia | reflexivity].
      * intros [Hk Heq]. apply Nat.mul_cancel_r in Heq; [| lia].
        now rewrite Heq.
    + rewrite lookup_insert_ne by congruence. rewrite Hmap. split.
      * intros [Hk ->]. split; [lia | reflexivity].
      * intros [Hk ->]. split; [| reflexivity].
        destruct (decide (k = j)) as [-> | Hkj]; [contradiction | lia].
Qed.

Lemma sampleFrom_spec positions vertexCount step :
  (1 <= step)%nat ->
  forall fuel j acc,
    sampledUpTo positions step j acc ->
    (vertexCount <= fuel + j * step)%nat ->
    exists j',
      sampledUpTo positions step j'
        (sampleFrom fuel positions vertexCount step (j * step) acc)
      /\ (j <= j')%nat
      /\ (vertexCount <= j' * step)%nat
      /\ (j < j' -> (j' - 1) * step < vertexCount)%nat
      /\ (vertexCount <= j * step -> j' = j)%nat.
Proof.
  intros Hstep. induction fuel as [| fuel IH]; intros j acc Hacc Hfuel; simpl.
  - exists j. split; [exact Hacc |]. simpl in Hfuel. repeat split; lia.
  - destruct (Nat.ltb_spec (j * step) vertexCount) as [Hlt | Hge].
    + pose proof (sampledUpTo_next positions step j acc Hstep Hacc) as Hnext.
      replace (j * step + step)%nat with (S j * step)%nat by lia.
      destruct (IH (S j) _ Hnext) as (j' & Hj' & Hle & Hvc & Hlast & Hstop);
        [simpl; lia |].
      exists j'. split; [exact Hj' |]. split; [lia |]. split; [lia |].
      split; [| lia].
      intros _. destruct (decide (S j = j')) as [<- | Hne].
      * simpl. rewrite Nat.sub_0_r. exact Hlt.
      * apply Hlast. lia.
    + exists j. split; [exact Hacc |]. repeat split; lia.
Qed.

Lemma sample_spec positions step :
  (1 <= step)%nat ->
  exists count,
    sampledUpTo positions step count (sample positions step)
    /\ (List.length positions <= count * step)%nat
    /\ (0 < count -> (count - 1) * step < List.length positions)%nat.
Proof.
  intros Hstep. unfold sample.
  destruct (sampleFrom_spec positions (List.length positions) step Hstep
              (List.length positions) 0 (mkSampling [] ∅ 0))
    as (count & Hs & _ & Hvc & Hlast & _).
  - unfold sampledUpTo. simpl.
    split; [reflexivity |]. split; [reflexivity |]. split.
    + intros k Hk. lia.
    + intros m k. rewrite lookup_empty. split; [discriminate |].
      intros [Hk _]. lia.
  - lia.
  - exists count. auto.
Qed.

Lemma stepOf_pos vertexCount ratio : (1 <= stepOf vertexCount ratio)%nat.
Proof. unfold stepOf. lia. Qed.

Lemma count_is_ceiling (vertexCount step count : nat) :
  (1 <= step)%nat ->
  (vertexCount <= count * step)%nat ->
  (0 < count -> (count - 1) * step < vertexCount)%nat ->
  count = ((vertexCount + step - 1) / step)%nat.
Proof.
  intros Hstep Hup Hlow.
  assert (count * step + 1 <= vertexCount + step)%nat as Hlow'.
  { destruct count as [| c]; [lia |].
    assert (c * step < vertexCount)%nat
      by (replace c with (S c - 1)%nat by lia; apply Hlow; lia).
    simpl. lia. }
  apply (Nat.div_unique _ _ _ (vertexCount + step - 1 - count * step)%nat);
    lia.
Qed.

Lemma simplifyGeometry_positions geometry ratio positions :
  positionAttribute geometry = Some positions ->
  positionAttribute (simplifyGeometry geometry ratio)
  = Some (newPositions
            (sample positions (stepOf (List.length positions) ratio))).
Proof. intros Hp. unfold simplifyGeometry. now rewrite Hp. Qed.

(** X23.  [simplifyGeometry] keeps every step-th vertex, in order, from
    the first: with a step of at least 1, the new vertex [k] is the old
    vertex [k * step], and there are ceil(vertexCount / step) of them, so
    never more than before and at least one when there was one. *)
Theorem simplifyGeometry_samples
    (geometry : Geometry) (ratio : R) (positions : list Vector3) :
  positionAttribute geometry = Some positions ->
  let step := stepOf (List.length positions) ratio in
  exists sampled,
    positionAttribute (simplifyGeometry geometry ratio) = Some sampled
    /\ (1 <= step)%nat
    /\ List.length sampled
       = ((List.length positions + step - 1) / step)%nat
    /\ (List.length sampled <= List.length positions)%nat
    /\ (0 < List.length positions -> 0 < List.length sampled)%nat
    /\ forall k, (k < List.length sampled)%nat ->
         sampled !! k = positions !! (k * step)%nat
         /\ is_Some (sampled !! k).
Proof.
  intros Hp step.
  pose proof (stepOf_pos (List.length positions) ratio) as Hstep.
  fold step in Hstep.
  destruct (sample_spec positions step Hstep)
    as (count & (Hn & Hlen & Hpos & Hmap) & Hup & Hlow).
  exists (newPositions (sample positions step)).
  split; [now apply simplifyGeometry_positions |].
  split; [exact Hstep |]. rewrite Hlen.
  split; [now apply count_is_ceiling |].
  split; [destruct count; [lia |]; specialize (Hlow ltac:(lia)); nia |].
  split; [destruct count; [lia |]; lia |].
  intros k Hk. rewrite (Hpos k Hk).
  assert (k * step < List.length positions)%nat as Hin.
  { specialize (Hlow ltac:(lia)).
    assert (k * step <= (count - 1) * step)%nat by (apply Nat.mul_le_mono_r; lia).
    lia. }
  destruct (lookup_lt_is_Some_2 positions (k * step) Hin) as [v Hv].
  rewrite Hv. simpl. eauto.
Qed.

Lemma simplifyGeometry_samples_witness :
  exists sampled,
    positionAttribute
      (simplifyGeometry
         (mkGeometry (Some [mkVector3 0 0 0; mkVector3 1 0 0; mkVector3 0 1 0])
            (Some [0; 1; 2]%nat))
         (1 / 2))
    = Some sampled
    /\ (List.length sampled <= 3)%nat.
Proof.
  destruct (simplifyGeometry_samples
              (mkGeometry
                 (Some [mkVector3 0 0 0; mkVector3 1 0 0; mkVector3 0 1 0])
                 (Some [0; 1; 2]%nat))
              (1 / 2)
              [mkVector3 0 0 0; mkVector3 1 0 0; mkVector3 0 1 0] eq_refl)
    as (sampled & Hs & _ & _ & Hle & _).
  exists sampled. split; [exact Hs | exact Hle].
Defined.




Lemma stepOf_small vertexCount ratio :
  (vertexCount < 200)%nat -> stepOf vertexCount ratio = 1%nat.
Proof.
  intros Hsmall. unfold stepOf.
  assert (100 <= targetCountOf vertexCount ratio)%nat as Htarget
    by (unfold targetCountOf; lia).
  assert (vertexCount / targetCountOf vertexCount ratio < 2)%nat as Hq.
  { apply Nat.Div0.div_lt_upper_bound. nia. }
  lia.
Qed.

Lemma sample_all positions :
  newPositions (sample positions 1) = positions
  /\ forall m, (m < List.length positions)%nat ->
       indexMap (sample positions 1) !! m = Some m.
Proof.
  destruct (sample_spec positions 1 (Nat.le_refl 1))
    as (count & (Hn & Hlen & Hpos & Hmap) & Hup & Hlow).
  assert (count = List.length positions) as ->.
  { destruct count; [lia |]. specialize (Hlow ltac:(lia)). lia. }
  split.
  - apply list_eq. intros k.
    destruct (Nat.lt_ge_cases k (List.length positions)) as [Hk | Hk].
    + rewrite (Hpos k Hk), Nat.mul_1_r.
      destruct (lookup_lt_is_Some_2 positions k Hk) as [v Hv].
      now rewrite Hv.
    + rewrite !lookup_ge_None_2 by lia. reflexivity.
  - intros m Hm. apply Hmap. split; [exact Hm | lia].
Qed.

Lemma rebuildIndices_identity (indexMap : gmap nat nat) (bound : nat) :
  (forall m, (m < bound)%nat -> indexMap !! m = Some m) ->
  forall n indices,
    (List.length indices <= n)%nat ->
    Forall (fun j => (j < bound)%nat) indices ->
    (List.length indices mod 3 = 0)%nat ->
    rebuildIndices indexMap indices = indices.
Proof.
  intros Hmap. induction n as [| n IH]; intros indices Hlen Hall Hmod.
  - destruct indices; [reflexivity | simpl in Hlen; lia].
  - destruct indices as [| i0 [| i1 [| i2 rest]]];
      [reflexivity | discriminate | discriminate |].
    cbn [rebuildIndices List.length] in *.
    apply Forall_cons in Hall as [H0 Hall].
    apply Forall_cons in Hall as [H1 Hall].
    apply Forall_cons in Hall as [H2 Hall].
    rewrite (Hmap i0 H0), (Hmap i1 H1), (Hmap i2 H2).
    rewrite IH; [reflexivity | lia | exact Hall |].
    replace (S (S (S (List.length rest))))
      with (List.length rest + 1 * 3)%nat in Hmod by lia.
    now rewrite Nat.Div0.mod_add in Hmod.
Qed.

(** X25.  A geometry of fewer than 200 vertices comes back with the same
    vertices whatever the ratio, and with the same index array when that
    one is not empty, holds whole triangles and points at vertices of the
    geometry. *)
Theorem simplifyGeometry_keeps_small
    (geometry : Geometry) (ratio : R) (positions : list Vector3) :
  positionAttribute geometry = Some positions ->
  (List.length positions < 200)%nat ->
  positionAttribute (simplifyGeometry geometry ratio) = Some positions
  /\ (forall indices,
        indexArray geometry = Some indices ->
        indices <> [] ->
        (List.length indices mod 3 = 0)%nat ->
        Forall (fun j => (j < List.length positions)%nat) indices ->
        indexArray (simplifyGeometry geometry ratio) = Some indices)
  /\ (indexArray geometry = None ->
      indexArray (simplifyGeometry geometry ratio) = None).
Proof.
  intros Hp Hsmall.
  destruct (sample_all positions) as [Hsame Hmap].
  unfold simplifyGeometry. rewrite Hp, stepOf_small by assumption.
  rewrite Hsame. simpl. split; [reflexivity |]. split.
  - intros indices -> Hne Hmod Hall.
    rewrite (rebuildIndices_identity _ (List.length positions) Hmap
               (List.length indices) indices (Nat.le_refl _) Hall Hmod).
    destruct indices; [contradiction | reflexivity].
  - intros ->. reflexivity.
Qed.

Lemma simplifyGeometry_keeps_small_witness :
  positionAttribute
    (simplifyGeometry
       (mkGeometry (Some [mkVector3 0 0 0; mkVector3 1 0 0; mkVector3 0 1 0])
          (Some [0; 1; 2]%nat))
       (3 / 10))
  = Some [mkVector3 0 0 0; mkVector3 1 0 0; mkVector3 0 1 0]
  /\ indexArray
       (simplifyGeometry
          (mkGeometry
             (Some [mkVector3 0 0 0; mkVector3 1 0 0; mkVector3 0 1 0])
             (Some [0; 1; 2]%nat))
          (3 / 10))
     = Some [0; 1; 2]%nat.
Proof.
  destruct (simplifyGeometry_keeps_small
              (mkGeometry
                 (Some [mkVector3 0 0 0; mkVector3 1 0 0; mkVector3 0 1 0])
                 (Some [0; 1; 2]%nat))
              (3 / 10)
              [mkVector3 0 0 0; mkVector3 1 0 0; mkVector3 0 1 0] eq_refl)
    as (Hpos & Hidx & _); [simpl; lia |].
  split; [exact Hpos |].
  apply Hidx; [reflexivity | discriminate | reflexivity |].
  repeat constructor.
Defined.

(** ** createPlaceholderComponents *)







(** ** The first and the last frame *)

(** X27.  [updateAssemblyProgress(0)] after [scatterComponents] leaves
    every component after the first at the position and the scale
    [scatterComponents] gave it. *)
Theorem updateAssemblyProgress_0_after_scatter
    (pattern : string) (this : AssemblyAnimation) (c0 c : obj)
    (rest : list obj) (p : Vector3) (r : Euler) (sc : Vector3) :
  components this = c0 :: rest ->
  NoDup (c0 :: rest) ->
  originalPositions this !! c0 = Some p ->
  originalRotations this !! c0 = Some r ->
  originalScales this !! c0 = Some sc ->
  c ∈ rest ->
  exists this' o o',
    scatterComponents pattern this = Some this'
    /\ objects this' !! c = Some o
    /\ objects (updateAssemblyProgress 0 this') !! c = Some o'
    /\ position o' = position o
    /\ scale o' = scale o
    /\ scale o' = mkVector3 (1 / 100) (1 / 100) (1 / 100).
Proof.
  intros Hl Hnd Hp Hr Hsc Hc.
  destruct (scatterComponents_scatters pattern this c0 c rest p r sc)
    as (this' & pos & k & Hrun & Hl' & _ & _ & _ & Hsp & Hsr & Hss & Hobj);
    try assumption.
  eexists this', _, _. split; [exact Hrun |]. split; [exact Hobj |].
  split.
  - apply updateAssemblyProgress_at_0. rewrite Hl', Hl.
    apply elem_of_cons. now right.
  - unfold scatteredPose, getOr. rewrite Hsp, Hss. repeat split.
Qed.

Lemma updateAssemblyProgress_0_after_scatter_witness :
  exists this' o o',
    scatterComponents "sphere" fourComponents = Some this'
    /\ objects this' !! 2%nat = Some o
    /\ objects (updateAssemblyProgress 0 this') !! 2%nat = Some o'
    /\ position o' = position o
    /\ scale o' = scale o
    /\ scale o' = mkVector3 (1 / 100) (1 / 100) (1 / 100).
Proof.
  apply (updateAssemblyProgress_0_after_scatter "sphere" fourComponents
           0%nat 2%nat [1; 2; 3]%nat
           (mkVector3 0 0 0) Euler_zero (mkVector3 1 1 1));
    [reflexivity | compute_done | reflexivity | reflexivity | reflexivity
    | compute_done].
Defined.

(** X28.  [updateAssemblyProgress(1)] after [processModel] on an object
    without groups puts every group at the world position of its mesh,
    taken from the centre of the bounds of all candidates, and at the
    world scale of its mesh. *)
Theorem updateAssemblyProgress_1_after_processModel
    (meshes : list SceneMesh) (page : Page) (now : R)
    (this : AssemblyAnimation) :
  wellFormed this ->
  componentGroups this = [] ->
  exists this',
    processModel meshes page now this = Some this'
    /\ forall g node,
         (g, node) ∈ componentGroups this' ->
         exists o,
           objects (updateAssemblyProgress 1 this') !! g = Some o
           /\ position o
              = sub (worldPosition node)
                  (getCenter (boundsOf (candidates meshes)))
           /\ scale o = worldScale node.
Proof.
  intros Hwf Hg.
  destruct (processModel_run meshes page now this Hwf)
    as (r & Hr & Hl & Hgr & _ & Hp & Hrot & Hs & _).
  destruct (afterLoop_recordedFrom meshes this Hg) as [Hnd Hrec].
  exists r. split; [exact Hr |].
  intros g node Hin. rewrite Hgr in Hin.
  destruct (Hrec g node Hin) as (_ & Hc & Hpos & _ & Hsc).
  eexists. split.
  - apply updateAssemblyProgress_at_1. rewrite Hl, sortBySize_perm.
    exact Hc.
  - assert (originalPositions r !! g
            = Some (sub (worldPosition node)
                      (getCenter (boundsOf (candidates meshes))))) as Hpos'
      by (rewrite Hp; exact Hpos).
    assert (originalScales r !! g = Some (worldScale node)) as Hsc'
      by (rewrite Hs; exact Hsc).
    unfold originalPose, getOr. rewrite Hpos', Hsc'. split; reflexivity.
Qed.

Lemma updateAssemblyProgress_1_after_processModel_witness :
  exists this',
    processModel [cubeAt 0] page800 0 fresh = Some this'
    /\ forall g node,
         (g, node) ∈ componentGroups this' ->
         exists o,
           objects (updateAssemblyProgress 1 this') !! g = Some o
           /\ position o
              = sub (worldPosition node)
                  (getCenter (boundsOf (candidates [cubeAt 0])))
           /\ scale o = worldScale node.
Proof.
  apply (updateAssemblyProgress_1_after_processModel [cubeAt 0] page800 0
           fresh); [| reflexivity].
  split.
  - apply NoDup_nil_2.
  - intros c Hc. exfalso. revert Hc. apply not_elem_of_nil.
Defined.
